(** * BackendGoAPI: the credential, validation, pagination and user-store layer

    A shallow embedding of [internal/password/hash.go],
    [internal/data/filters.go] and [internal/data/users.go].

    Go values are modelled as follows.
    - [string] is a byte string ([String.string]); [len] is [String.length].
    - [[]byte] is [list byte]; a slice that may be [nil] is an [option].
    - [*string] is [option string].
    - [int], [int64] are [Z] (no arithmetic of the modelled functions can
      leave the 64-bit range, except where written out).
    - an [error] result is [option error], [None] being [nil].
    - [panic] is an explicit outcome, distinct from every returned value. *)

From Stdlib Require Import ZArith Lia Bool List.
From Stdlib Require Import Strings.String Strings.Ascii Strings.Byte.
From Stdlib Require Import SpecFloat.
From stdpp Require Import base decidable option list gmap strings.

Import ListNotations.
Local Open Scope Z_scope.

(** ** Go's [error] values and the [errors] package *)

Module errors.

(** An error value is a package-level sentinel made by [errors.New]
    (compared by identity; the sentinels of this program have pairwise
    distinct texts), any other error that only carries its [Error()] text
    (driver and context errors), or an error that wraps another one. *)
Inductive error : Type :=
| Sentinel (text : string)
| Opaque (text : string)
| Wrap (text : string) (inner : error).

#[global] Instance error_eq_dec : EqDecision error.
Proof. solve_decision. Defined.

Definition New (text : string) : error := Sentinel text.

(** [err.Error()] *)
Definition Error (e : error) : string :=
  match e with
  | Sentinel t => t
  | Opaque t => t
  | Wrap t _ => t
  end.

(** [errors.Is(err, target)]: [err] or an error in its [Unwrap] chain is
    [target]. *)
Fixpoint Is (err target : error) : bool :=
  if decide (err = target) then true
  else match err with
       | Wrap _ inner => Is inner target
       | _ => false
       end.

End errors.

Export errors (error).

(** A call either returns or panics. *)
Inductive outcome (A : Type) : Type :=
| Returns (a : A)
| Panics (msg : string).
Arguments Returns {A} a.
Arguments Panics {A} msg.

#[global] Instance byte_eq_dec : EqDecision byte := Byte.byte_eq_dec.

(** [[]byte(s)] *)
Definition bytes_of (s : string) : list byte := list_byte_of_string s.

(** A possibly-nil slice read as a sequence of bytes. *)
Definition slice_bytes (h : option (list byte)) : list byte := default [] h.

(** ** [golang.org/x/crypto/bcrypt], the hashing primitive *)

Module bcrypt.

Definition ErrMismatchedHashAndPassword : error :=
  errors.New "crypto/bcrypt: hashedPassword is not the hash of the given password".
Definition ErrHashTooShort : error :=
  errors.New "crypto/bcrypt: hashedSecret too short to be a bcrypted password".
Definition ErrPasswordTooLong : error :=
  errors.New "bcrypt: password length exceeds 72 bytes".

(** The two entry points the program calls.  [GenerateFromPassword] draws
    its salt from the system's random source, which is the [entropy]
    argument here. *)
Class Primitive : Type := {
  GenerateFromPassword : list byte -> list byte -> Z -> list byte + error;
  CompareHashAndPassword : list byte -> list byte -> option error
}.

(** The key schedule of bcrypt reads the password, followed by a zero byte,
    cyclically into eighteen 32-bit words: 72 bytes of key material. *)
Definition key_bytes : nat := 72.

Definition key_stream (password : list byte) : list byte :=
  let key := password ++ [x00] in
  map (fun i => nth (i mod length key)%nat key x00) (seq 0 key_bytes).

(** What the program relies on from the primitive. *)
Record contract (B : Primitive) : Prop := {
  (** passwords longer than 72 bytes are refused when hashing *)
  generate_bound : forall entropy password cost h,
      GenerateFromPassword entropy password cost = inl h ->
      (length password <= key_bytes)%nat;
  (** a fresh hash verifies against its own password *)
  generate_compare : forall entropy password cost h,
      GenerateFromPassword entropy password cost = inl h ->
      CompareHashAndPassword h password = None;
  (** verification sees a candidate only through its key material *)
  compare_key_stream : forall h p q,
      key_stream p = key_stream q ->
      CompareHashAndPassword h p = CompareHashAndPassword h q
}.

(** Idealisation: digests of different key material never coincide, so a
    candidate with other key material is reported as a mismatch. *)
Definition collision_free (B : Primitive) : Prop :=
  forall entropy password cost h q,
    GenerateFromPassword entropy password cost = inl h ->
    key_stream q <> key_stream password ->
    CompareHashAndPassword h q = Some ErrMismatchedHashAndPassword.

(** The same for one password and one candidate only: with other key material
    than the password, the candidate has another digest under the salt of the
    password's hash, and is reported as a mismatch.  The primitive in use
    meets this for every pair but the colliding ones. *)
Definition distinct_digests (B : Primitive)
    (entropy password : list byte) (cost : Z) (candidate : list byte) : Prop :=
  forall h,
    GenerateFromPassword entropy password cost = inl h ->
    key_stream candidate <> key_stream password ->
    CompareHashAndPassword h candidate = Some ErrMismatchedHashAndPassword.

End bcrypt.

(** ** [internal/password/hash.go] *)

Module password.

Record Password : Type := {
  PlainText : option string;
  Hash : option (list byte)
}.

Section WithPrimitive.
Context {B : bcrypt.Primitive}.

(** [func (p *Password) Set(plainTestPassword string) error]: the receiver
    after the call and the returned error. *)
Definition Set_ (entropy : list byte) (p : Password) (plainTestPassword : string)
  : Password * option error :=
  match bcrypt.GenerateFromPassword entropy (bytes_of plainTestPassword) 12 with
  | inr err => (p, Some err)
  | inl hash => ({| PlainText := Some plainTestPassword; Hash := Some hash |}, None)
  end.

(** [func (p *Password) Matches(plainTestPassword string) (bool, error)] *)
Definition Matches (p : Password) (plainTestPassword : string) : bool * option error :=
  match bcrypt.CompareHashAndPassword (slice_bytes (Hash p)) (bytes_of plainTestPassword) with
  | Some err =>
      if errors.Is err bcrypt.ErrMismatchedHashAndPassword then (false, None)
      else (false, Some err)
  | None => (true, None)
  end.

End WithPrimitive.
End password.

(** An executable stand-in for the primitive: the digest is the key material
    itself, stored behind a 16-byte salt.  It has the key window of bcrypt
    and none of its cost; it serves to run the program on concrete inputs. *)

Module bcrypt_model.

Definition salt_bytes : nat := 16.

Definition generate (entropy password : list byte) (cost : Z) : list byte + error :=
  if (bcrypt.key_bytes <? length password)%nat then inr bcrypt.ErrPasswordTooLong
  else if (length entropy <? salt_bytes)%nat then inr (errors.Opaque "unexpected EOF")
  else inl (take salt_bytes entropy ++ bcrypt.key_stream password).

Definition compare (hashedPassword candidate : list byte) : option error :=
  if (length hashedPassword <? salt_bytes + bcrypt.key_bytes)%nat
  then Some bcrypt.ErrHashTooShort
  else if decide (drop salt_bytes hashedPassword = bcrypt.key_stream candidate)
       then None
       else Some bcrypt.ErrMismatchedHashAndPassword.

#[export] Instance primitive : bcrypt.Primitive :=
  {| bcrypt.GenerateFromPassword := generate;
     bcrypt.CompareHashAndPassword := compare |}.

End bcrypt_model.

(** ** [crypto/sha256] (FIPS 180-4) *)

Module sha256.

Definition w32 (x : Z) : Z := x mod 2 ^ 32.
Definition add32 (x y : Z) : Z := w32 (x + y).
Definition rotr (n x : Z) : Z := w32 (Z.lor (Z.shiftr x n) (Z.shiftl x (32 - n))).

Definition Ch (x y z : Z) : Z := Z.lxor (Z.land x y) (Z.land (Z.lxor x (2 ^ 32 - 1)) z).
Definition Maj (x y z : Z) : Z := Z.lxor (Z.lxor (Z.land x y) (Z.land x z)) (Z.land y z).
Definition Sigma0 (x : Z) : Z := Z.lxor (Z.lxor (rotr 2 x) (rotr 13 x)) (rotr 22 x).
Definition Sigma1 (x : Z) : Z := Z.lxor (Z.lxor (rotr 6 x) (rotr 11 x)) (rotr 25 x).
Definition sigma0 (x : Z) : Z := Z.lxor (Z.lxor (rotr 7 x) (rotr 18 x)) (Z.shiftr x 3).
Definition sigma1 (x : Z) : Z := Z.lxor (Z.lxor (rotr 17 x) (rotr 19 x)) (Z.shiftr x 10).

(** The round constants are the fractional parts of the cube roots of the
    first 64 primes, the initial state those of the square roots of the
    first 8. *)
Definition is_prime (n : Z) : bool :=
  (1 <? n) && forallb (fun d => negb (n mod d =? 0)) (map Z.of_nat (seq 2 (Z.to_nat n - 2))).

Definition primes64 : list Z :=
  Eval vm_compute in filter (fun n => is_prime n) (map Z.of_nat (seq 2 310)).

Definition cbrt_floor (n : Z) : Z :=
  fold_left (fun r bit => let r' := r + 2 ^ Z.of_nat bit in
                          if r' * r' * r' <=? n then r' else r)
            (rev (seq 0 40)) 0.

Definition K : list Z :=
  Eval vm_compute in map (fun p => w32 (cbrt_floor (p * 2 ^ 96))) primes64.

Definition H0 : list Z :=
  Eval vm_compute in map (fun p => w32 (Z.sqrt (p * 2 ^ 64))) (take 8 primes64).

Definition byte_Z (b : byte) : Z := Z.of_N (Byte.to_N b).
Definition Z_byte (z : Z) : byte := default x00 (Byte.of_N (Z.to_N (z mod 256))).

(** big-endian encodings *)
Definition be_bytes (width : nat) (x : Z) : list Z :=
  map (fun i => Z.shiftr x (8 * Z.of_nat i) mod 256) (rev (seq 0 width)).
Definition be_word (bs : list Z) : Z :=
  fold_left (fun acc b => acc * 256 + b) bs 0.

Definition pad (msg : list Z) : list Z :=
  let len := Z.of_nat (length msg) in
  let zeros := Z.to_nat ((55 - len) mod 64) in
  msg ++ [128] ++ repeat 0 zeros ++ be_bytes 8 (8 * len).

Fixpoint chunks (fuel n : nat) (l : list Z) : list (list Z) :=
  match fuel with
  | O => []
  | S fuel' =>
      match l with
      | [] => []
      | _ => take n l :: chunks fuel' n (drop n l)
      end
  end.

(** the message schedule, most recent word first *)
Definition schedule (block : list Z) : list Z :=
  let w16 := rev (map be_word (chunks 16 4 block)) in
  rev (fold_left
         (fun w _ =>
            add32 (add32 (sigma1 (nth 1 w 0)) (nth 6 w 0))
                  (add32 (sigma0 (nth 14 w 0)) (nth 15 w 0)) :: w)
         (seq 16 48) w16).

Definition round (st : list Z) (kw : Z * Z) : list Z :=
  match st with
  | [a; b; c; d; e; f; g; h] =>
      let t1 := add32 (add32 (add32 h (Sigma1 e)) (add32 (Ch e f g) kw.1)) kw.2 in
      let t2 := add32 (Sigma0 a) (Maj a b c) in
      [add32 t1 t2; a; b; c; add32 d t1; e; f; g]
  | _ => st
  end.

Definition compress (st block : list Z) : list Z :=
  zip_with add32 st (fold_left round (zip K (schedule block)) st).

Definition Sum256 (data : list byte) : list byte :=
  let padded := pad (map byte_Z data) in
  let st := fold_left compress (chunks (length padded) 64 padded) H0 in
  map Z_byte (concat (map (be_bytes 4) st)).

End sha256.

(** ** [strings] *)

Module strings.

(** [strings.HasPrefix(s, prefix)] *)
Definition HasPrefix (s prefix : string) : bool := String.prefix prefix s.

(** [strings.TrimPrefix(s, prefix)] *)
Definition TrimPrefix (s prefix : string) : string :=
  if HasPrefix s prefix
  then String.substring (String.length prefix) (String.length s - String.length prefix) s
  else s.

End strings.

(** [len(s)] *)
Definition len (s : string) : Z := Z.of_nat (String.length s).

(** ** [internal/validator] *)

Module validator.

(** Modelled from the spec: the validator package is not among the sources.
    The spec describes it as a pure predicate-evaluation helper that
    accumulates named field-level failures; here it keeps every failed
    check, in the order recorded, as a (field, message) pair. *)
Record Validator : Type := { Errors : list (string * string) }.

(** Modelled from the spec: a validator with no failure yet. *)
Definition New : Validator := {| Errors := [] |}.

(** Modelled from the spec: no failure was recorded. *)
Definition Valid (v : Validator) : bool := bool_decide (Errors v = []).

(** Modelled from the spec: record a failure of field [key]. *)
Definition AddError (key message : string) (v : Validator) : Validator :=
  {| Errors := Errors v ++ [(key, message)] |}.

(** Modelled from the spec: [v.Check(ok, key, message)] records the failure
    unless [ok]. *)
Definition Check (ok : bool) (key message : string) (v : Validator) : Validator :=
  if ok then v else AddError key message v.

(** the field [key] has a recorded failure *)
Definition failed (key : string) (v : Validator) : Prop := key ∈ (Errors v).*1.

(** Modelled from the spec: [value] is a member of the permitted values
    (exact match). *)
Definition PermittedValue (value : string) (permittedValues : list string) : bool :=
  bool_decide (value ∈ permittedValues).

(** Modelled from the spec: [value] does not appear in the list. *)
Definition NotIn (value : string) (list : list string) : bool :=
  negb (bool_decide (value ∈ list)).

(** Modelled from the spec: a compiled pattern, as its match predicate. *)
Definition Regexp : Type := string -> bool.

(** Modelled from the spec: [value] matches the pattern. *)
Definition Matches (value : string) (rx : Regexp) : bool := rx value.

End validator.

(** ** [database/sql] and the store behind it *)

Definition dquote : string := String "034"%char EmptyString.

Module sql.

Definition ErrNoRows : error := errors.New "sql: no rows in result set".

(** [QueryRowContext(...).Scan(...)]: the columns of the first row, or the
    error of the query or of an empty result. *)
Inductive scan (A : Type) : Type :=
| Row (columns : A)
| Err (err : error).
Arguments Row {A} columns.
Arguments Err {A} err.

(** Modelled from the spec: the schema is not among the sources.  A row of
    [users] has the columns id (generated, unique; the key of the table
    below), created_at (generated), name, email (unique), password_hash,
    activated and version (starts at 1). *)
Record user_row : Type := {
  created_at : Z;
  name : string;
  email : string;
  password_hash : option (list byte);
  activated : bool;
  version : Z
}.

(** Modelled from the spec: a row of [tokens] has the columns hash, scope,
    expiry and user_id. *)
Record token_row : Type := {
  hash : list byte;
  user_id : Z;
  expiry : Z;
  scope : string
}.

(** Modelled from the spec: the store holds the two tables; [users] is keyed
    by its generated id, which comes from a sequence. *)
Record DB : Type := {
  users : gmap Z user_row;
  tokens : list token_row;
  users_id_seq : Z
}.

(** The message of the driver for a violated unique constraint; the one on
    [users.email] is named [users_email_key]. *)
Definition unique_violation (constraint : string) : error :=
  errors.Opaque
    (String.append "pq: duplicate key value violates unique constraint "
       (String.append dquote (String.append constraint dquote))).

(** Modelled from the spec: email is unique across all users.  Some row
    other than [self] already has this email. *)
Definition email_taken (db : DB) (self : option Z) (e : string) : bool :=
  existsb (fun ir => negb (bool_decide (Some ir.1 = self)) && String.eqb (email ir.2) e)
          (map_to_list (users db)).

(** [INSERT INTO users (name, email, password_hash, activated)
     VALUES ($1, $2, $3, $4) RETURNING id, created_at, version];
    the id, the creation time and the initial version 1 are the store's. *)
Definition insert_user (now : Z) (db : DB) (a1 a2 : string) (a3 : option (list byte))
    (a4 : bool) : DB * scan (Z * Z * Z) :=
  let id := users_id_seq db in
  if email_taken db None a2 then (db, Err (unique_violation "users_email_key"))
  else if bool_decide (is_Some (users db !! id))
       then (db, Err (unique_violation "users_pkey"))
       else
         let row := {| created_at := now; name := a1; email := a2;
                       password_hash := a3; activated := a4; version := 1 |} in
         ({| users := <[id := row]> (users db); tokens := tokens db;
             users_id_seq := id + 1 |},
          Row (id, now, 1)).

(** [SELECT id, created_at, name, email, password_hash, activated, version
     FROM users WHERE email = $1] *)
Definition select_user_by_email (db : DB) (a1 : string) : scan (Z * user_row) :=
  match List.filter (fun ir => String.eqb (email ir.2) a1) (map_to_list (users db)) with
  | ir :: _ => Row ir
  | [] => Err ErrNoRows
  end.

(** [UPDATE users
     SET name = $1, email = $2, password_hash = $3, activated = $4,
         version = version + 1
     WHERE id = $5 AND version = $6
     RETURNING version]
    The range of the column is not represented: [version + 1] is taken in
    [Z]. *)
Definition update_user (db : DB) (a1 a2 : string) (a3 : option (list byte)) (a4 : bool)
    (a5 a6 : Z) : DB * scan Z :=
  match users db !! a5 with
  | Some old =>
      if version old =? a6 then
        if email_taken db (Some a5) a2 then (db, Err (unique_violation "users_email_key"))
        else
          let row := {| created_at := created_at old; name := a1; email := a2;
                        password_hash := a3; activated := a4;
                        version := version old + 1 |} in
          ({| users := <[a5 := row]> (users db); tokens := tokens db;
              users_id_seq := users_id_seq db |},
           Row (version row))
      else (db, Err ErrNoRows)
  | None => (db, Err ErrNoRows)
  end.

(** the condition on [tokens] in the query of [GetForToken] *)
Definition token_matches (a1 : list byte) (a2 : string) (a3 : Z) (t : token_row) : bool :=
  bool_decide (hash t = a1) && String.eqb (scope t) a2 && (a3 <? expiry t).

(** [SELECT users.id, ..., users.version
     FROM users INNER JOIN tokens ON users.id = tokens.user_id
     WHERE tokens.hash = $1 AND tokens.scope = $2 AND tokens.expiry > $3] *)
Fixpoint join_user_for_token (us : gmap Z user_row) (ts : list token_row)
    (a1 : list byte) (a2 : string) (a3 : Z) : scan (Z * user_row) :=
  match ts with
  | [] => Err ErrNoRows
  | t :: rest =>
      if token_matches a1 a2 a3 t then
        match us !! user_id t with
        | Some row => Row (user_id t, row)
        | None => join_user_for_token us rest a1 a2 a3
        end
      else join_user_for_token us rest a1 a2 a3
  end.

Definition select_user_for_token (db : DB) (a1 : list byte) (a2 : string) (a3 : Z)
  : scan (Z * user_row) :=
  join_user_for_token (users db) (tokens db) a1 a2 a3.

(** A statement that the store could not run (no connection, a deadline of
    the context that has passed before it starts): nothing is applied and
    the failure is the answer.  A failure that strikes after the store has
    applied the statement, or while the answer is scanned, is not
    represented; what is proved of a store that fails says nothing of it. *)
Definition run {A : Type} (fault : option error) (db : DB) (stmt : DB * scan A)
  : DB * scan A :=
  match fault with
  | Some err => (db, Err err)
  | None => stmt
  end.

End sql.

(** ** Package [data]: [internal/data/filters.go] *)

Module data.

Import validator.

Definition min_int64 : Z := - 2 ^ 63.
Definition max_int64 : Z := 2 ^ 63 - 1.

(** arithmetic of Go's [int] wraps around at 64 bits *)
Definition wrap64 (z : Z) : Z := (z + 2 ^ 63) mod 2 ^ 64 - 2 ^ 63.

Record Filters : Type := {
  Page : Z;
  PageSize : Z;
  Sort : string;
  SortSafeList : list string
}.

Definition ValidateFilters (v : Validator) (f : Filters) : Validator :=
  let v := Check (0 <? Page f) "page" "must be greater than zero" v in
  let v := Check (Page f <=? 10000000) "page" "must be a maximum of 10 million" v in
  let v := Check (0 <? PageSize f) "page_size" "must be greater than zero" v in
  let v := Check (PageSize f <=? 100) "page_size" "must be less than 100" v in
  Check (PermittedValue (Sort f) (SortSafeList f)) "sort" "invalid sort value" v.

(** the [range] loop of [sortColumn] over the remaining safelist *)
Fixpoint sortColumn_loop (sort : string) (safelist : list string) : outcome string :=
  match safelist with
  | [] => Panics (String.append "unsafe sort parameter: " sort)
  | safeValue :: rest =>
      if String.eqb sort safeValue
      then Returns (strings.TrimPrefix sort "-")
      else sortColumn_loop sort rest
  end.

Definition sortColumn (f : Filters) : outcome string :=
  sortColumn_loop (Sort f) (SortSafeList f).

Definition sortDirection (f : Filters) : string :=
  if strings.HasPrefix (Sort f) "-" then "DESC" else "ASC".

Definition limit (f : Filters) : Z := PageSize f.

Definition offset (f : Filters) : Z := wrap64 ((Page f - 1) * PageSize f).

Record Metadata : Type := {
  CurrentPage : Z;
  Metadata_PageSize : Z;
  FirstPage : Z;
  LastPage : Z;
  TotalRecords : Z
}.

(** *** IEEE 754 binary64, as specified by [SpecFloat] *)

Definition float64 : Type := spec_float.

Definition prec : Z := 53.
Definition emax : Z := 1024.

(** [float64(n)] for an [int] [n]: rounded to nearest, ties to even *)
Definition float64_of_int (n : Z) : float64 := binary_normalize prec emax n 0 false.

Definition float64_div (x y : float64) : float64 := SFdiv prec emax x y.

(** [math.Ceil(x)]: the least integral value not below [x]; zeros,
    infinities and NaN are returned as they are *)
Definition math_Ceil (x : float64) : float64 :=
  match x with
  | S754_finite s m e =>
      if 0 <=? e then x
      else
        let c := if s then - (Zpos m / 2 ^ (- e)) else - ((- Zpos m) / 2 ^ (- e)) in
        binary_normalize prec emax c 0 s
  | _ => x
  end.

(** [int(x)]: the fraction is discarded; a value that [int] cannot hold
    converts to the smallest [int], as the amd64 instruction does *)
Definition int_of_float64 (x : float64) : Z :=
  match x with
  | S754_zero _ => 0
  | S754_finite s m e =>
      let a := if 0 <=? e then Zpos m * 2 ^ e else Zpos m / 2 ^ (- e) in
      let v := if s then - a else a in
      if (min_int64 <=? v) && (v <=? max_int64) then v else min_int64
  | _ => min_int64
  end.

Definition calculateMetadata (totalRecords page pagesize : Z) : Metadata :=
  if totalRecords =? 0 then
    {| CurrentPage := 0; Metadata_PageSize := 0; FirstPage := 0;
       LastPage := 0; TotalRecords := 0 |}
  else
    {| CurrentPage := page;
       Metadata_PageSize := pagesize;
       FirstPage := 1;
       LastPage := int_of_float64
                     (math_Ceil (float64_div (float64_of_int totalRecords)
                                             (float64_of_int pagesize)));
       TotalRecords := totalRecords |}.

(** ** Package [data]: [internal/data/users.go] *)

Definition ErrDuplicateEmail : error := errors.New "duplicate email".

(** Modelled from the spec: the two error kinds [RecordNotFound] and
    [EditConflict] are declared in a file that is not among the sources. *)
Definition ErrRecordNotFound : error := errors.New "record not found".
Definition ErrEditConflict : error := errors.New "edit conflict".

Record User : Type := {
  ID : Z;
  CreatedAt : Z;
  Name : string;
  Email : string;
  Password : password.Password;
  Activated : bool;
  Version : Z
}.

Section Validation.

(** Modelled from the spec: [validator.EmailRX] (the email pattern) and
    [password.CommonPasswords] (the denylist) are not among the sources. *)
Context (EmailRX : Regexp) (CommonPasswords : list string).

Definition ValidateEmail (v : Validator) (email : string) : Validator :=
  let v := Check (negb (String.eqb email EmptyString)) "email" "must be provided" v in
  Check (validator.Matches email EmailRX) "email" "must be a valid email address" v.

Definition ValidatePassowrdPlaintext (v : Validator) (pass : string) : Validator :=
  let v := Check (negb (String.eqb pass EmptyString)) "password" "must be provided" v in
  let v := Check (8 <=? len pass) "password" "must be at least 8 bytes long" v in
  let v := Check (len pass <=? 72) "password" "must not be more than 72 bytes long" v in
  Check (NotIn pass CommonPasswords) "Password" "Password is too common" v.

(** [ValidateUser(v, user)]: the validator after the call, and whether the
    call returned or panicked. *)
Definition ValidateUser (v : Validator) (user : User) : Validator * outcome unit :=
  let v := Check (negb (String.eqb (Name user) EmptyString)) "name" "must be provided" v in
  let v := Check (len (Name user) <=? 500) "name" "must not be more than 500 bytes long" v in
  let v := ValidateEmail v (Email user) in
  let v := match password.PlainText (Password user) with
           | Some plain => ValidatePassowrdPlaintext v plain
           | None => v
           end in
  match password.Hash (Password user) with
  | None => (v, Panics "missing password hash for user")
  | Some _ => (v, Returns tt)
  end.

End Validation.

(** the record a row is scanned into *)
Definition user_of_row (ir : Z * sql.user_row) : User :=
  {| ID := ir.1;
     CreatedAt := sql.created_at ir.2;
     Name := sql.name ir.2;
     Email := sql.email ir.2;
     Password := {| password.PlainText := None;
                    password.Hash := sql.password_hash ir.2 |};
     Activated := sql.activated ir.2;
     Version := sql.version ir.2 |}.

Definition with_generated (user : User) (id created version : Z) : User :=
  {| ID := id; CreatedAt := created; Name := Name user; Email := Email user;
     Password := Password user; Activated := Activated user; Version := version |}.

Definition with_Version (user : User) (version : Z) : User :=
  {| ID := ID user; CreatedAt := CreatedAt user; Name := Name user;
     Email := Email user; Password := Password user; Activated := Activated user;
     Version := version |}.

(** [AnonymousUser = &User{}]: the value it points to, every field zero. *)
Definition AnonymousUser : User :=
  {| ID := 0; CreatedAt := 0; Name := EmptyString; Email := EmptyString;
     Password := {| password.PlainText := None; password.Hash := None |};
     Activated := false; Version := 0 |}.

(** Each method of [UserModel] is given the store, what the store does to
    the statement ([fault]), and returns the store afterwards, the [*User]
    argument afterwards where there is one, and its results.  None of them
    contains a [panic].  An error of [Scan] is taken to come with no column
    assigned, as it does when the statement itself is refused; a row of
    which only some columns could be scanned is not represented. *)

Definition Insert (now : Z) (fault : option error) (db : sql.DB) (user : User)
  : sql.DB * outcome (User * option error) :=
  let '(db', res) :=
    sql.run fault db
      (sql.insert_user now db (Name user) (Email user)
         (password.Hash (Password user)) (Activated user)) in
  match res with
  | sql.Err err =>
      if String.eqb (errors.Error err)
           (String.append "pq: duplicate key value violates unique constraint "
              (String.append dquote (String.append "users_email_key" dquote)))
      then (db', Returns (user, Some ErrDuplicateEmail))
      else (db', Returns (user, Some err))
  | sql.Row (id, created, version) =>
      (db', Returns (with_generated user id created version, None))
  end.

Definition GetByEmail (fault : option error) (db : sql.DB) (email : string)
  : option User * option error :=
  match (sql.run fault db (db, sql.select_user_by_email db email)).2 with
  | sql.Err err =>
      if errors.Is err sql.ErrNoRows then (None, Some ErrRecordNotFound)
      else (None, Some err)
  | sql.Row ir => (Some (user_of_row ir), None)
  end.

Definition Update (fault : option error) (db : sql.DB) (user : User)
  : sql.DB * outcome (User * option error) :=
  let '(db', res) :=
    sql.run fault db
      (sql.update_user db (Name user) (Email user) (password.Hash (Password user))
         (Activated user) (ID user) (Version user)) in
  match res with
  | sql.Err err =>
      if String.eqb (errors.Error err)
           (String.append "pq: duplicate key value violates unique constraint "
              (String.append dquote (String.append "user_email_key" dquote)))
      then (db', Returns (user, Some ErrDuplicateEmail))
      else if errors.Is err sql.ErrNoRows
           then (db', Returns (user, Some ErrEditConflict))
           else (db', Returns (user, Some err))
  | sql.Row version => (db', Returns (with_Version user version, None))
  end.

Definition GetForToken (now : Z) (fault : option error) (db : sql.DB)
    (tokenScope tokenPlainText : string) : option User * option error :=
  let tokenHash := sha256.Sum256 (bytes_of tokenPlainText) in
  match (sql.run fault db
           (db, sql.select_user_for_token db tokenHash tokenScope now)).2 with
  | sql.Err err =>
      if errors.Is err sql.ErrNoRows then (None, Some ErrRecordNotFound)
      else (None, Some err)
  | sql.Row ir => (Some (user_of_row ir), None)
  end.

End data.

(** ** Reference points for the properties below *)

Module reference.

(** a sort token without its descending-order marker *)
Definition strip_dash (s : string) : string :=
  match s with
  | String "-"%char rest => rest
  | _ => s
  end.

(** a [Password] that was never set *)
Definition unset : password.Password :=
  {| password.PlainText := None; password.Hash := None |}.

(** a password of exactly 72 bytes, and sixteen bytes of salt *)
Definition plain72 : string :=
  "correct horse battery staple correct horse battery staple correct horse!".
Definition salt16 : list byte := repeat x2a 16.

(** a [Password] set to "pa55word!" by the stand-in primitive *)
Definition was_set : password.Password :=
  (password.Set_ (B := bcrypt_model.primitive) salt16 unset "pa55word!").1.

(** a stand-in for the email pattern and for the denylist *)
Definition contains_at : validator.Regexp :=
  fun s => existsb (Ascii.eqb "@") (list_ascii_of_string s).
Definition denylist : list string := ["password"; "12345678"; "qwertyuiop"].

(** a text of [n] bytes, and a user who registers under a given name with a
    given plaintext, already hashed *)
Definition letters (n : nat) : string := string_of_list_ascii (repeat "n"%char n).

Definition registrant (name plain : string) : data.User :=
  {| data.ID := 0; data.CreatedAt := 0; data.Name := name;
     data.Email := "dora@example.com";
     data.Password := {| password.PlainText := Some plain;
                         password.Hash := Some (bytes_of plain) |};
     data.Activated := false; data.Version := 0 |}.

(** a user whose password was never set, and an empty store *)
Definition alice : data.User :=
  {| data.ID := 0; data.CreatedAt := 0; data.Name := "Alice";
     data.Email := "alice@example.com"; data.Password := unset;
     data.Activated := false; data.Version := 0 |}.

Definition empty_db : sql.DB :=
  {| sql.users := ∅; sql.tokens := []; sql.users_id_seq := 1 |}.

(** a store with two users and one authentication token of the first,
    valid until instant 1000 *)
Definition hash_of (plain : string) : list byte :=
  [x24; x32; x61] ++ bytes_of plain.

Definition ann_row : sql.user_row :=
  {| sql.created_at := 10; sql.name := "Ann";
     sql.email := "ann@example.com";
     sql.password_hash := Some (hash_of "ann's secret");
     sql.activated := true; sql.version := 1 |}.

Definition bob_row : sql.user_row :=
  {| sql.created_at := 20; sql.name := "Bob";
     sql.email := "bob@example.com";
     sql.password_hash := Some (hash_of "bob's secret");
     sql.activated := false; sql.version := 4 |}.

(** the token "Y3QMGX3PJ3WLRL2YRTQGQ6KRHU" as the store holds it: the 32
    bytes of its SHA-256 digest *)
Definition ann_token : sql.token_row :=
  {| sql.hash := [xb6; x27; x62; xd8; x8a; xec; x7a; x8f; xf1; xae; xc0; xf2; x75; xac;
                  x0f; x14; x72; x73; x0a; xfc; x59; x17; xe8; x69; x8d; x31; xc5; x33;
                  x3a; xd0; xc5; xeb];
     sql.user_id := 1; sql.expiry := 1000;
     sql.scope := "authentication" |}.

Definition two_users : sql.DB :=
  {| sql.users := <[1 := ann_row]> (<[2 := bob_row]> ∅);
     sql.tokens := [ann_token];
     sql.users_id_seq := 3 |}.

(** Bob as loaded from the store, and Bob about to take Ann's email *)
Definition bob : data.User := data.user_of_row (2, bob_row).

Definition bob_as_ann : data.User :=
  {| data.ID := 2; data.CreatedAt := 20; data.Name := "Bob";
     data.Email := "ann@example.com"; data.Password := data.Password bob;
     data.Activated := false; data.Version := 4 |}.

(** a store that cannot be reached *)
Definition store_down : error :=
  errors.Opaque "dial tcp 127.0.0.1:5432: connect: connection refused".

End reference.

(** ** Rounding to nearest, and ceilings *)

Module rounding.

Import data.

(** the float with mantissa [m] (at most [2^53]) and exponent [e] *)
Definition pack (s : bool) (m e : Z) : float64 :=
  if m =? 2 ^ 53 then S754_finite s (Z.to_pos (2 ^ 52)) (e + 1)
  else S754_finite s (Z.to_pos m) e.

(** the record left by dropping the last digit of [m] *)
Definition halved (m : Z) (l : location) : shr_record :=
  shr_1 (shr_record_of_loc m l).

(** the integer at or above the number of sign [s], mantissa [m] and
    exponent [e] *)
Definition ceil_int (s : bool) (m e : Z) : Z :=
  if 0 <=? e then (if s then - (m * 2 ^ e) else m * 2 ^ e)
  else if s then - (m / 2 ^ (- e)) else - ((- m) / 2 ^ (- e)).

(** the ceiling of [a / b] *)
Definition ceiling_div (a b : Z) : Z := - ((- a) / b).

End rounding.

(** * Properties *)

(** ** Errors *)

Module errors_facts.

Lemma Is_refl e : errors.Is e e = true.
Proof. destruct e; simpl; destruct (decide _); congruence. Qed.

End errors_facts.

(** ** SHA-256 on the test vectors of FIPS 180-4 *)

Module sha256_facts.

Lemma Sum256_abc :
  map sha256.byte_Z (sha256.Sum256 (bytes_of "abc"))
  = [0xba; 0x78; 0x16; 0xbf; 0x8f; 0x01; 0xcf; 0xea; 0x41; 0x41; 0x40; 0xde; 0x5d; 0xae;
     0x22; 0x23; 0xb0; 0x03; 0x61; 0xa3; 0x96; 0x17; 0x7a; 0x9c; 0xb4; 0x10; 0xff; 0x61;
     0xf2; 0x00; 0x15; 0xad].
Proof. vm_compute. reflexivity. Qed.

Lemma Sum256_two_blocks :
  map sha256.byte_Z
    (sha256.Sum256 (bytes_of "abcdbcdecdefdefgefghfghighijhijkijkljklmklmnlmnomnopnopq"))
  = [0x24; 0x8d; 0x6a; 0x61; 0xd2; 0x06; 0x38; 0xb8; 0xe5; 0xc0; 0x26; 0x93; 0x0c; 0x3e;
     0x60; 0x39; 0xa3; 0x3c; 0xe4; 0x59; 0x64; 0xff; 0x21; 0x67; 0xf6; 0xec; 0xed; 0xd4;
     0x19; 0xdb; 0x06; 0xc1].
Proof. vm_compute. reflexivity. Qed.

Lemma Sum256_length data : length (sha256.Sum256 data) = 32%nat.
Proof.
  unfold sha256.Sum256. rewrite length_map.
  set (blocks := sha256.chunks _ _ _).
  assert (forall st, length st = 8%nat ->
            length (fold_left sha256.compress blocks st) = 8%nat) as Hst.
  { induction blocks as [| blk rest IH]; intros st Hlen; [exact Hlen |].
    simpl. apply IH. unfold sha256.compress.
    rewrite length_zip_with.
    assert (forall kws st0, length st0 = 8%nat ->
              length (fold_left sha256.round kws st0) = 8%nat) as Hround.
    { induction kws as [| kw kws IHk]; intros st0 H0; [exact H0 |].
      simpl. apply IHk.
      destruct st0 as [| a [| b [| c [| d [| e [| f [| g [| h [| ? ?]]]]]]]]];
        try discriminate. reflexivity. }
    rewrite Hround by assumption. lia. }
  specialize (Hst sha256.H0 eq_refl).
  destruct (fold_left sha256.compress blocks sha256.H0)
    as [| a [| b [| c [| d [| e [| f [| g [| h [| ? ?]]]]]]]]]; try discriminate.
  reflexivity.
Qed.

End sha256_facts.

(** ** The key window of the hashing primitive *)

Module bcrypt_facts.

Import bcrypt.

Lemma key_stream_length p : length (key_stream p) = key_bytes.
Proof. unfold key_stream. now rewrite length_map, length_seq. Qed.

Lemma key_stream_nth p i :
  (i < key_bytes)%nat ->
  nth i (key_stream p) x00 = nth (i mod S (length p))%nat (p ++ [x00]) x00.
Proof.
  intros Hi. unfold key_stream.
  set (f := fun j => nth (j mod length (p ++ [x00]))%nat (p ++ [x00]) x00).
  rewrite (nth_indep _ x00 (f 0%nat)) by now rewrite length_map, length_seq.
  rewrite (map_nth f), seq_nth by assumption.
  unfold f. rewrite Nat.add_0_l, length_app, Nat.add_1_r. reflexivity.
Qed.

(** A byte appended to a password that already fills the window is never
    read. *)
Lemma key_stream_full p b :
  length p = key_bytes -> key_stream (p ++ [b]) = key_stream p.
Proof.
  intros Hlen.
  apply (nth_ext _ _ x00 x00).
  - now rewrite !key_stream_length.
  - intros i Hi. rewrite key_stream_length in Hi.
    rewrite !key_stream_nth by assumption.
    rewrite length_app, Nat.add_1_r.
    rewrite !Nat.mod_small by (unfold key_bytes in *; lia).
    rewrite <- app_assoc.
    rewrite !app_nth1 by (unfold key_bytes in *; lia). reflexivity.
Qed.

(** Below the window, an appended non-zero byte changes the key material. *)
Lemma key_stream_short p b :
  (length p < key_bytes)%nat -> b <> x00 -> key_stream (p ++ [b]) <> key_stream p.
Proof.
  intros Hlen Hb Heq.
  apply (f_equal (fun l => nth (length p) l x00)) in Heq.
  rewrite !key_stream_nth in Heq by assumption.
  rewrite length_app, Nat.add_1_r in Heq.
  rewrite !Nat.mod_small in Heq by lia.
  rewrite <- app_assoc in Heq.
  rewrite (app_nth2 p [x00]), (app_nth2 p ([b] ++ [x00])) in Heq by lia.
  rewrite Nat.sub_diag in Heq. simpl in Heq. congruence.
Qed.

End bcrypt_facts.

Module bcrypt_model_facts.

Import bcrypt bcrypt_model.

Lemma generate_inv entropy password cost h :
  generate entropy password cost = inl h ->
  (length password <= key_bytes)%nat /\ (salt_bytes <= length entropy)%nat /\
  h = take salt_bytes entropy ++ key_stream password.
Proof.
  unfold generate.
  destruct (Nat.ltb_spec key_bytes (length password)); [discriminate |].
  destruct (Nat.ltb_spec (length entropy) salt_bytes); [discriminate |].
  intros [= <-]. auto.
Qed.

Lemma compare_generated entropy password cost h q :
  generate entropy password cost = inl h ->
  compare h q = if decide (key_stream password = key_stream q) then None
                else Some ErrMismatchedHashAndPassword.
Proof.
  intros (Hp & He & ->)%generate_inv. unfold compare.
  rewrite length_app, length_take, bcrypt_facts.key_stream_length.
  rewrite Nat.min_l by assumption.
  rewrite Nat.ltb_irrefl.
  rewrite drop_app_length' by (rewrite length_take; lia).
  reflexivity.
Qed.

Lemma contract_holds : contract primitive.
Proof.
  split; simpl.
  - intros entropy password cost h H. now apply generate_inv in H.
  - intros entropy password cost h H.
    rewrite (compare_generated _ _ _ _ _ H). now rewrite decide_True.
  - intros h p q Hpq. unfold compare. now rewrite Hpq.
Qed.

Lemma collision_free_holds : collision_free primitive.
Proof.
  intros entropy password cost h q H Hne. simpl in *.
  rewrite (compare_generated _ _ _ _ _ H). now rewrite decide_False by congruence.
Qed.

End bcrypt_model_facts.

(** ** [password.Password]: [Set] and [Matches] *)

Module password_facts.

Import bcrypt password reference.

Lemma bytes_of_append s t : bytes_of (String.append s t) = bytes_of s ++ bytes_of t.
Proof.
  unfold bytes_of, list_byte_of_string.
  induction s as [| c s IH]; simpl; [reflexivity | now rewrite IH].
Qed.

Lemma bytes_of_length s : length (bytes_of s) = String.length s.
Proof.
  unfold bytes_of, list_byte_of_string.
  induction s as [| c s IH]; simpl; [reflexivity | now rewrite IH].
Qed.

Section WithPrimitive.
Context {B : Primitive}.

Lemma Set_success entropy p plain p' :
  Set_ entropy p plain = (p', None) ->
  exists h, GenerateFromPassword entropy (bytes_of plain) 12 = inl h /\
            p' = {| PlainText := Some plain; Hash := Some h |}.
Proof.
  unfold Set_. destruct (GenerateFromPassword _ _ _) as [h | err]; intros [= <-].
  now exists h.
Qed.

(** On every primitive with the key window of bcrypt, a candidate that
    extends a 72-byte password is accepted. *)
Lemma Matches_beyond_key_window entropy p plain p' suffix :
  contract B ->
  Set_ entropy p plain = (p', None) ->
  String.length plain = key_bytes ->
  Matches p' (String.append plain (String suffix EmptyString)) = (true, None).
Proof.
  intros HB (h & Hgen & ->)%Set_success Hlen.
  unfold Matches. simpl.
  rewrite bytes_of_append.
  rewrite (compare_key_stream B HB h _ (bytes_of plain)).
  - now rewrite (generate_compare B HB _ _ _ _ Hgen).
  - apply bcrypt_facts.key_stream_full. now rewrite bytes_of_length.
Qed.

(** C10. [Set] is all-or-nothing on the [Password] value: when it returns
    an error, that error is the one of the hashing primitive and the value
    is as it was before the call; when it returns none, [Hash] is the hash
    the primitive made at cost 12 and [PlainText] points to the given
    plaintext. *)
Theorem Set_atomic entropy (p : Password) (plain : string) (p' : Password) (r : option error) :
  Set_ entropy p plain = (p', r) ->
  match r with
  | Some err =>
      GenerateFromPassword entropy (bytes_of plain) 12 = inr err /\ p' = p
  | None =>
      exists h, GenerateFromPassword entropy (bytes_of plain) 12 = inl h /\
                PlainText p' = Some plain /\ Hash p' = Some h
  end.
Proof.
  unfold Set_.
  destruct (GenerateFromPassword entropy (bytes_of plain) 12) as [h | err];
    intros [= <- <-].
  - exists h. auto.
  - auto.
Qed.

(** C2. [Matches] returns [(false, nil)] exactly when the verification
    primitive reports a mismatch, [(false, err)] with that error for every
    other failure of the primitive, and [(true, nil)] when it reports none;
    a mismatch is never returned as an error. *)
Theorem Matches_mismatch_is_not_an_error (p : Password) (plain : string) :
  let verdict := CompareHashAndPassword (slice_bytes (Hash p)) (bytes_of plain) in
  (Matches p plain = (false, None) <->
     exists err, verdict = Some err /\ errors.Is err ErrMismatchedHashAndPassword = true)
  /\ (forall err, verdict = Some err ->
        errors.Is err ErrMismatchedHashAndPassword = false ->
        Matches p plain = (false, Some err))
  /\ (forall err, Matches p plain = (false, Some err) ->
        verdict = Some err /\ errors.Is err ErrMismatchedHashAndPassword = false)
  /\ (Matches p plain = (true, None) <-> verdict = None).
Proof.
  unfold Matches. cbv zeta.
  destruct (CompareHashAndPassword _ _) as [err |];
    [destruct (errors.Is err ErrMismatchedHashAndPassword) eqn:His |].
  - (* the primitive reports a mismatch *)
    split; [split; [intros _; now exists err | reflexivity] |].
    split; [intros e [= <-]; congruence |].
    split; [discriminate | split; discriminate].
  - (* the primitive fails otherwise *)
    split; [split; [discriminate | intros (e & [= <-] & He); congruence] |].
    split; [now intros e [= <-] _ |].
    split; [intros e [= <-]; now split | split; discriminate].
  - (* the primitive accepts *)
    split; [split; [discriminate | intros (e & He & _); discriminate] |].
    split; [discriminate |].
    split; [discriminate | split; reflexivity].
Qed.

(** C1 (amended). After [Set(p)] succeeds, [p] is at most 72 bytes and
    [Matches(p)] returns [(true, nil)].  When [p] is at most 71 bytes,
    [p + "x"] has other key material than [p], and [Matches(p + "x")] returns
    [(false, nil)] unless the digests of the two collide; when [p] is exactly
    72 bytes, [Matches(p + "x")] returns [(true, nil)]: the primitive reads
    72 bytes of the candidate and no more.  Only the statement about a
    password of at most 71 bytes rests on the digests being distinct. *)
Theorem Set_then_Matches entropy (p : Password) (plain : string) (p' : Password) :
  contract B ->
  Set_ entropy p plain = (p', None) ->
  (String.length plain <= 72)%nat
  /\ Matches p' plain = (true, None)
  /\ ((String.length plain <= 71)%nat ->
      key_stream (bytes_of (String.append plain "x")) <> key_stream (bytes_of plain)
      /\ (distinct_digests B entropy (bytes_of plain) 12
                           (bytes_of (String.append plain "x")) ->
          Matches p' (String.append plain "x") = (false, None)))
  /\ (String.length plain = 72%nat -> Matches p' (String.append plain "x") = (true, None)).
Proof.
  intros HB HSet.
  destruct (Set_success _ _ _ _ HSet) as (h & Hgen & ->).
  pose proof (generate_bound B HB _ _ _ _ Hgen) as Hlen.
  rewrite bytes_of_length in Hlen.
  split; [exact Hlen |].
  split; [unfold Matches; simpl; now rewrite (generate_compare B HB _ _ _ _ Hgen) |].
  split.
  - intros Hshort.
    assert (key_stream (bytes_of (String.append plain "x")) <> key_stream (bytes_of plain))
      as Hkey.
    { rewrite bytes_of_append.
      apply bcrypt_facts.key_stream_short; [| discriminate].
      rewrite bytes_of_length. unfold key_bytes. lia. }
    split; [exact Hkey |].
    intros Hdistinct. unfold Matches. simpl.
    rewrite (Hdistinct h Hgen Hkey). now rewrite errors_facts.Is_refl.
  - intros Hfull. now apply (Matches_beyond_key_window entropy p).
Qed.

End WithPrimitive.

(** C1 as stated fails at a 72-byte password: after [Set(p)] succeeds,
    [Matches(p + "x")] returns [(true, nil)], not [(false, nil)]. *)
Lemma Matches_appended_x_accepted :
  String.length plain72 = 72%nat /\
  exists p',
    Set_ (B := bcrypt_model.primitive) salt16 unset plain72 = (p', None) /\
    Matches (B := bcrypt_model.primitive) p' plain72 = (true, None) /\
    Matches (B := bcrypt_model.primitive) p' (String.append plain72 "x") = (true, None) /\
    Matches (B := bcrypt_model.primitive) p' (String.append plain72 "x") <> (false, None).
Proof.
  split; [reflexivity |].
  eexists. split; [vm_compute; reflexivity |].
  split; [vm_compute; reflexivity |].
  split; [vm_compute; reflexivity | vm_compute; discriminate].
Qed.

(** The stand-in primitive has no collisions; a password of nine bytes. *)
Lemma Set_then_Matches_witness :
  Set_ (B := bcrypt_model.primitive) salt16 unset "pa55word!" = (was_set, None)
  /\ Matches (B := bcrypt_model.primitive) was_set "pa55word!" = (true, None)
  /\ key_stream (bytes_of "pa55word!x") <> key_stream (bytes_of "pa55word!")
  /\ Matches (B := bcrypt_model.primitive) was_set "pa55word!x" = (false, None).
Proof.
  assert (Set_ (B := bcrypt_model.primitive) salt16 unset "pa55word!" = (was_set, None))
    as Hset by (vm_compute; reflexivity).
  destruct (Set_then_Matches (B := bcrypt_model.primitive) salt16 unset "pa55word!" was_set
              bcrypt_model_facts.contract_holds Hset)
    as (_ & Hsame & Hx & _).
  destruct Hx as (Hkey & Hfalse); [simpl; lia |].
  split; [exact Hset |]. split; [exact Hsame |]. split; [exact Hkey |].
  apply Hfalse. intros h Hgen Hne.
  exact (bcrypt_model_facts.collision_free_holds _ _ _ _ _ Hgen Hne).
Defined.

(** A password already set stays as it was when a later [Set] is refused. *)
Lemma Set_atomic_witness :
  Set_ (B := bcrypt_model.primitive) salt16 was_set (String.append plain72 "x")
  = (was_set, Some ErrPasswordTooLong)
  /\ GenerateFromPassword (Primitive := bcrypt_model.primitive) salt16
       (bytes_of (String.append plain72 "x")) 12 = inr ErrPasswordTooLong.
Proof.
  split; [vm_compute; reflexivity |].
  exact (proj1 (Set_atomic (B := bcrypt_model.primitive) salt16 was_set
                  (String.append plain72 "x") was_set (Some ErrPasswordTooLong)
                  ltac:(vm_compute; reflexivity))).
Defined.

(** A stored hash that is no hash is an error, a wrong password is not. *)
Lemma Matches_mismatch_is_not_an_error_witness :
  Matches (B := bcrypt_model.primitive) unset "pa55word!" = (false, Some ErrHashTooShort)
  /\ Matches (B := bcrypt_model.primitive) was_set "pa55word?" = (false, None).
Proof.
  destruct (Matches_mismatch_is_not_an_error (B := bcrypt_model.primitive) unset "pa55word!")
    as (_ & Hother & _).
  destruct (Matches_mismatch_is_not_an_error (B := bcrypt_model.primitive) was_set "pa55word?")
    as (Hmismatch & _).
  split.
  - apply Hother; vm_compute; reflexivity.
  - apply Hmismatch. exists ErrMismatchedHashAndPassword. split; vm_compute; reflexivity.
Defined.

End password_facts.

(** ** The sort resolver *)

Module filters_facts.

Import data reference.

Lemma substring_all s : String.substring 0 (String.length s) s = s.
Proof. induction s as [| c s IH]; simpl; [reflexivity | now rewrite IH]. Qed.

Lemma HasPrefix_dash s :
  strings.HasPrefix s "-" = true <-> exists rest, s = String "-"%char rest.
Proof.
  unfold strings.HasPrefix. destruct s as [| c rest]; cbn [String.prefix].
  - split; [discriminate | intros [r Hr]; discriminate].
  - destruct (ascii_dec "-" c) as [<- | Hne].
    + destruct rest; (split; [intros _; eexists; reflexivity | reflexivity]).
    + split; [discriminate | intros [r [= Hc _]]; congruence].
Qed.

Lemma TrimPrefix_dash s : strings.TrimPrefix s "-" = strip_dash s.
Proof.
  unfold strings.TrimPrefix.
  destruct (strings.HasPrefix s "-") eqn:Hp.
  - apply HasPrefix_dash in Hp as [rest ->]. simpl.
    rewrite Nat.sub_0_r. apply substring_all.
  - destruct s as [| c rest]; [reflexivity |].
    unfold strip_dash.
    destruct (ascii_dec c "-") as [-> | Hne].
    + assert (strings.HasPrefix (String "-" rest) "-" = true) as Ht
        by (apply HasPrefix_dash; now exists rest).
      congruence.
    + destruct c as [[] [] [] [] [] [] [] []]; try reflexivity. now destruct Hne.
Qed.

Lemma sortColumn_loop_member sort safelist :
  sort ∈ safelist ->
  sortColumn_loop sort safelist = Returns (strings.TrimPrefix sort "-").
Proof.
  induction safelist as [| safeValue rest IH]; intros Hin.
  - now apply elem_of_nil in Hin.
  - simpl. destruct (String.eqb_spec sort safeValue) as [_ | Hne]; [reflexivity |].
    apply IH. apply elem_of_cons in Hin as [-> | Hin]; [contradiction | assumption].
Qed.

Lemma sortColumn_loop_stranger sort safelist :
  sort ∉ safelist ->
  sortColumn_loop sort safelist = Panics (String.append "unsafe sort parameter: " sort).
Proof.
  induction safelist as [| safeValue rest IH]; intros Hnin; [reflexivity |].
  simpl. destruct (String.eqb_spec sort safeValue) as [-> | Hne].
  - exfalso. apply Hnin. apply elem_of_cons. now left.
  - apply IH. intros Hin. apply Hnin. apply elem_of_cons. now right.
Qed.

(** C4. When [Sort] is a member of [SortSafeList], [sortColumn] returns
    [Sort] without its leading "-" and [sortDirection] is "DESC" exactly
    when [Sort] begins with "-", "ASC" otherwise; when [Sort] is not a
    member, [sortColumn] panics and returns no column. *)
Theorem sortColumn_safelisted_or_panics (f : Filters) :
  (Sort f ∈ SortSafeList f ->
     sortColumn f = Returns (strip_dash (Sort f))
     /\ (sortDirection f = "DESC" <-> exists rest, Sort f = String "-"%char rest)
     /\ (sortDirection f = "ASC" <-> ~ exists rest, Sort f = String "-"%char rest))
  /\ (Sort f ∉ SortSafeList f ->
        sortColumn f = Panics (String.append "unsafe sort parameter: " (Sort f))
        /\ forall column, sortColumn f <> Returns column).
Proof.
  split.
  - intros Hin. split.
    + unfold sortColumn. rewrite sortColumn_loop_member by assumption.
      now rewrite TrimPrefix_dash.
    + unfold sortDirection.
      destruct (strings.HasPrefix (Sort f) "-") eqn:Hp.
      * apply HasPrefix_dash in Hp. split; split; try discriminate; tauto.
      * assert (~ exists rest, Sort f = String "-"%char rest) as Hn
          by (intros H; apply HasPrefix_dash in H; congruence).
        split; split; try discriminate; tauto.
  - intros Hnin. unfold sortColumn.
    rewrite sortColumn_loop_stranger by assumption. split; [reflexivity | discriminate].
Qed.

Lemma sortColumn_safelisted_or_panics_witness :
  sortColumn {| Page := 1; PageSize := 20; Sort := "-id"; SortSafeList := ["id"; "-id"] |}
  = Returns "id"
  /\ sortDirection {| Page := 1; PageSize := 20; Sort := "-id"; SortSafeList := ["id"; "-id"] |}
     = "DESC"
  /\ sortColumn {| Page := 1; PageSize := 20; Sort := "name"; SortSafeList := ["id"; "-id"] |}
     = Panics "unsafe sort parameter: name".
Proof.
  destruct (sortColumn_safelisted_or_panics
              {| Page := 1; PageSize := 20; Sort := "-id"; SortSafeList := ["id"; "-id"] |})
    as [Hin _].
  destruct (sortColumn_safelisted_or_panics
              {| Page := 1; PageSize := 20; Sort := "name"; SortSafeList := ["id"; "-id"] |})
    as [_ Hout].
  destruct Hin as (Hcol & Hdesc & _).
  { simpl. apply list_elem_of_In. simpl. tauto. }
  destruct Hout as [Hpanic _].
  { simpl. intros H. apply list_elem_of_In in H. simpl in H.
    destruct H as [H | [H | []]]; discriminate. }
  split; [exact Hcol |]. split; [| exact Hpanic].
  apply Hdesc. now exists "id".
Defined.

End filters_facts.

(** ** Validation of a user *)

Module validation_facts.

Import validator data reference.

Lemma failed_Check k ok key message v :
  failed k (Check ok key message v) <-> failed k v \/ (ok = false /\ key = k).
Proof.
  unfold failed, Check. destruct ok.
  - intuition discriminate.
  - unfold AddError. simpl. rewrite fmap_app, elem_of_app. simpl.
    rewrite list_elem_of_singleton. intuition congruence.
Qed.

Lemma not_failed_New k : ~ failed k validator.New.
Proof. unfold failed. simpl. apply not_elem_of_nil. Qed.

Lemma provided_false s : negb (String.eqb s EmptyString) = false <-> s = EmptyString.
Proof. destruct (String.eqb_spec s EmptyString); simpl; intuition discriminate. Qed.

Lemma NotIn_false s l : NotIn s l = false <-> s ∈ l.
Proof.
  unfold NotIn. destruct (bool_decide_reflect (s ∈ l)); simpl; intuition discriminate.
Qed.

Section Validation.
Context (EmailRX : Regexp) (CommonPasswords : list string).

Lemma failed_ValidateEmail k v e :
  failed k (ValidateEmail EmailRX v e) <->
  failed k v \/ (k = "email" /\ (e = EmptyString \/ EmailRX e = false)).
Proof.
  unfold ValidateEmail, validator.Matches. rewrite !failed_Check, provided_false.
  intuition congruence.
Qed.

Lemma failed_ValidatePassowrdPlaintext k v pass :
  failed k (ValidatePassowrdPlaintext CommonPasswords v pass) <->
  failed k v
  \/ (k = "password" /\ (pass = EmptyString \/ len pass < 8 \/ 72 < len pass))
  \/ (k = "Password" /\ pass ∈ CommonPasswords).
Proof.
  unfold ValidatePassowrdPlaintext.
  rewrite !failed_Check, provided_false, NotIn_false, Z.leb_gt, Z.leb_gt.
  intuition congruence.
Qed.

(** the validator [ValidateUser] leaves behind, whether it returns or not *)
Lemma failed_ValidateUser k v user :
  failed k (ValidateUser EmailRX CommonPasswords v user).1 <->
  failed k v
  \/ (k = "name" /\ (Name user = EmptyString \/ 500 < len (Name user)))
  \/ (k = "email" /\ (Email user = EmptyString \/ EmailRX (Email user) = false))
  \/ (exists plain, password.PlainText (Password user) = Some plain /\
        ((k = "password" /\ (plain = EmptyString \/ len plain < 8 \/ 72 < len plain))
         \/ (k = "Password" /\ plain ∈ CommonPasswords))).
Proof.
  assert (failed k (ValidateEmail EmailRX
            (Check (len (Name user) <=? 500) "name" "must not be more than 500 bytes long"
               (Check (negb (String.eqb (Name user) EmptyString)) "name" "must be provided" v))
            (Email user)) <->
          failed k v
          \/ (k = "name" /\ (Name user = EmptyString \/ 500 < len (Name user)))
          \/ (k = "email" /\ (Email user = EmptyString \/ EmailRX (Email user) = false)))
    as Hbase.
  { rewrite failed_ValidateEmail, !failed_Check, provided_false, Z.leb_gt.
    split.
    - intros [[[H | [H <-]] | [H <-]] | H]; auto 6.
    - intros [H | [[-> [H | H]] | H]]; auto 6. }
  assert (failed k (ValidateUser EmailRX CommonPasswords v user).1 <->
          failed k (match password.PlainText (Password user) with
                    | Some plain =>
                        ValidatePassowrdPlaintext CommonPasswords
                          (ValidateEmail EmailRX
                             (Check (len (Name user) <=? 500) "name"
                                "must not be more than 500 bytes long"
                                (Check (negb (String.eqb (Name user) EmptyString)) "name"
                                   "must be provided" v))
                             (Email user)) plain
                    | None =>
                        ValidateEmail EmailRX
                          (Check (len (Name user) <=? 500) "name"
                             "must not be more than 500 bytes long"
                             (Check (negb (String.eqb (Name user) EmptyString)) "name"
                                "must be provided" v))
                          (Email user)
                    end)) as ->
    by (unfold ValidateUser; now destruct (password.Hash (Password user))).
  destruct (password.PlainText (Password user)) as [plain |].
  - rewrite failed_ValidatePassowrdPlaintext, Hbase. split.
    + intros H; decompose [or and] H;
        first [solve [auto 6] | do 3 right; exists plain; split; [reflexivity | auto 6]].
    + intros H; decompose [or and ex] H; try discriminate;
        repeat match goal with E : Some _ = Some _ |- _ => injection E as -> end;
        auto 9.
  - rewrite Hbase. split.
    + intros H; decompose [or and] H; eauto 9.
    + intros H; decompose [or and ex] H; try discriminate; auto 9.
Qed.

(** the same with the lengths counted in bytes of the text *)
Lemma failed_ValidateUser_bytes k v user :
  failed k (ValidateUser EmailRX CommonPasswords v user).1 <->
  failed k v
  \/ (k = "name" /\ (Name user = EmptyString \/ (500 < String.length (Name user))%nat))
  \/ (k = "email" /\ (Email user = EmptyString \/ EmailRX (Email user) = false))
  \/ (exists plain, password.PlainText (Password user) = Some plain /\
        ((k = "password" /\
          (plain = EmptyString \/ (String.length plain < 8)%nat
           \/ (72 < String.length plain)%nat))
         \/ (k = "Password" /\ plain ∈ CommonPasswords))).
Proof.
  rewrite failed_ValidateUser.
  assert (500 < len (Name user) <-> (500 < String.length (Name user))%nat) as ->
    by (unfold len; lia).
  assert (forall plain, (len plain < 8 \/ 72 < len plain) <->
                        ((String.length plain < 8)%nat \/ (72 < String.length plain)%nat))
    as Hp by (intros plain; unfold len; lia).
  setoid_rewrite Hp. reflexivity.
Qed.

(** C8. [ValidateUser] always applies the name rules (non-empty, at most
    500 bytes) and the email rules (non-empty, matches the pattern); it
    applies the plaintext rules (non-empty, 8 to 72 bytes, not in the
    denylist) if and only if a plaintext is present.  With no plaintext and
    a hash it returns, and no password failure is recorded.  The bounds are
    on the number of bytes of the text. *)
Theorem ValidateUser_rules (user : User) :
  let v := (ValidateUser EmailRX CommonPasswords validator.New user).1 in
  (failed "name" v <->
     Name user = EmptyString \/ (500 < String.length (Name user))%nat)
  /\ (failed "email" v <-> Email user = EmptyString \/ EmailRX (Email user) = false)
  /\ (failed "password" v <->
        exists plain, password.PlainText (Password user) = Some plain /\
                      (plain = EmptyString \/ (String.length plain < 8)%nat
                       \/ (72 < String.length plain)%nat))
  /\ (failed "Password" v <->
        exists plain, password.PlainText (Password user) = Some plain /\
                      plain ∈ CommonPasswords)
  /\ (forall k, failed k v -> k ∈ ["name"; "email"; "password"; "Password"])
  /\ (password.PlainText (Password user) = None ->
      forall h, password.Hash (Password user) = Some h ->
        ValidateUser EmailRX CommonPasswords validator.New user = (v, Returns tt)
        /\ ~ failed "password" v /\ ~ failed "Password" v).
Proof.
  cbv zeta.
  pose proof (fun k => failed_ValidateUser_bytes k validator.New user) as H.
  pose proof not_failed_New as HN.
  split; [| split; [| split; [| split; [| split]]]].
  - split.
    + intros [F | [[_ F] | [[F _] | (p & _ & [[F _] | [F _]])]]]%H;
        first [now apply HN in F | discriminate | assumption].
    + intros F. apply H. right. left. now split.
  - split.
    + intros [F | [[F _] | [[_ F] | (p & _ & [[F _] | [F _]])]]]%H;
        first [now apply HN in F | discriminate | assumption].
    + intros F. apply H. right. right. left. now split.
  - split.
    + intros [F | [[F _] | [[F _] | (p & Hp & [[_ F] | [F _]])]]]%H;
        first [now apply HN in F | discriminate | eauto].
    + intros (p & Hp & F). apply H. do 3 right. exists p. split; [assumption |].
      left. now split.
  - split.
    + intros [F | [[F _] | [[F _] | (p & Hp & [[F _] | [_ F]])]]]%H;
        first [now apply HN in F | discriminate | eauto].
    + intros (p & Hp & F). apply H. do 3 right. exists p. split; [assumption |].
      right. now split.
  - intros k [F | [[-> _] | [[-> _] | (p & _ & [[-> _] | [-> _]])]]]%H;
      [now apply HN in F | ..]; apply list_elem_of_In; simpl; tauto.
  - intros Hplain h Hhash. split; [| split].
    + unfold ValidateUser. now rewrite Hhash.
    + intros [F | [[F _] | [[F _] | (p & Hp & _)]]]%H;
        first [now apply HN in F | discriminate | congruence].
    + intros [F | [[F _] | [[F _] | (p & Hp & _)]]]%H;
        first [now apply HN in F | discriminate | congruence].
Qed.

End Validation.

(** Bob as loaded from the store has a hash and no plaintext: validation
    returns, and no password failure is recorded.  A name of 500 bytes
    passes and one of 501 fails; a plaintext of 8 or of 72 bytes passes, one
    of 7 or of 73 fails. *)
Lemma ValidateUser_rules_witness :
  ((ValidateUser contains_at denylist validator.New bob).2 = Returns tt
   /\ ~ failed "password" (ValidateUser contains_at denylist validator.New bob).1
   /\ ~ failed "Password" (ValidateUser contains_at denylist validator.New bob).1)
  /\ (String.length (letters 500) = 500%nat
      /\ ~ failed "name" (ValidateUser contains_at denylist validator.New
                            (registrant (letters 500) "pa55word")).1)
  /\ (String.length (letters 501) = 501%nat
      /\ failed "name" (ValidateUser contains_at denylist validator.New
                          (registrant (letters 501) "pa55word")).1)
  /\ (~ failed "password" (ValidateUser contains_at denylist validator.New
                             (registrant "Dora" "pa55word")).1
      /\ failed "password" (ValidateUser contains_at denylist validator.New
                              (registrant "Dora" "pa55wor")).1)
  /\ (String.length plain72 = 72%nat
      /\ ~ failed "password" (ValidateUser contains_at denylist validator.New
                                (registrant "Dora" plain72)).1
      /\ failed "password" (ValidateUser contains_at denylist validator.New
                              (registrant "Dora" (String.append plain72 "x"))).1).
Proof.
  split; [| split; [| split; [| split]]].
  - destruct (ValidateUser_rules contains_at denylist bob) as (_ & _ & _ & _ & _ & Hnone).
    destruct (Hnone eq_refl _ eq_refl) as (Hret & Hp & HP).
    split; [now rewrite Hret | split; assumption].
  - split; [vm_compute; reflexivity |].
    destruct (ValidateUser_rules contains_at denylist (registrant (letters 500) "pa55word"))
      as ([Hname _] & _).
    intros F. destruct (Hname F) as [G | G]; [discriminate G | vm_compute in G; lia].
  - split; [vm_compute; reflexivity |].
    destruct (ValidateUser_rules contains_at denylist (registrant (letters 501) "pa55word"))
      as ([_ Hname] & _).
    apply Hname. right. vm_compute. lia.
  - split.
    + destruct (ValidateUser_rules contains_at denylist (registrant "Dora" "pa55word"))
        as (_ & _ & [Hpass _] & _).
      intros F. destruct (Hpass F) as (plain & [= <-] & [G | [G | G]]);
        [discriminate G | simpl in G; lia | simpl in G; lia].
    + destruct (ValidateUser_rules contains_at denylist (registrant "Dora" "pa55wor"))
        as (_ & _ & [_ Hpass] & _).
      apply Hpass. exists "pa55wor". split; [reflexivity |]. right. left. simpl. lia.
  - split; [reflexivity |]. split.
    + destruct (ValidateUser_rules contains_at denylist (registrant "Dora" plain72))
        as (_ & _ & [Hpass _] & _).
      intros F. destruct (Hpass F) as (plain & [= <-] & [G | [G | G]]);
        [discriminate G | vm_compute in G; lia | vm_compute in G; lia].
    + destruct (ValidateUser_rules contains_at denylist
                  (registrant "Dora" (String.append plain72 "x")))
        as (_ & _ & [_ Hpass] & _).
      apply Hpass. exists (String.append plain72 "x"). split; [reflexivity |].
      right. right. vm_compute. lia.
Defined.

End validation_facts.

(** ** The user repository *)

Module users_facts.

Import data reference.

Lemma token_matches_true a1 a2 a3 t :
  sql.token_matches a1 a2 a3 t = true <->
  sql.hash t = a1 /\ sql.scope t = a2 /\ a3 < sql.expiry t.
Proof.
  unfold sql.token_matches.
  rewrite !andb_true_iff, bool_decide_eq_true, Z.ltb_lt.
  destruct (String.eqb_spec (sql.scope t) a2); intuition discriminate.
Qed.

Lemma join_row us ts a1 a2 a3 ir :
  sql.join_user_for_token us ts a1 a2 a3 = sql.Row ir ->
  exists t, t ∈ ts /\ sql.token_matches a1 a2 a3 t = true /\
            sql.user_id t = ir.1 /\ us !! ir.1 = Some ir.2.
Proof.
  induction ts as [| t rest IH]; simpl; [discriminate |].
  destruct (sql.token_matches a1 a2 a3 t) eqn:Hm.
  - destruct (us !! sql.user_id t) as [row |] eqn:Hrow.
    + intros [= <-]. exists t. simpl. repeat split; [apply elem_of_cons; now left | assumption ..].
    + intros (t' & Hin & H)%IH. exists t'. split; [apply elem_of_cons; now right | exact H].
  - intros (t' & Hin & H)%IH. exists t'. split; [apply elem_of_cons; now right | exact H].
Qed.

Lemma join_err us ts a1 a2 a3 err :
  sql.join_user_for_token us ts a1 a2 a3 = sql.Err err -> err = sql.ErrNoRows.
Proof.
  induction ts as [| t rest IH]; simpl; [now intros [= <-] |].
  destruct (sql.token_matches a1 a2 a3 t); [destruct (us !! sql.user_id t) |];
    first [discriminate | exact IH].
Qed.

Lemma join_no_binding us ts a1 a2 a3 :
  (forall t, t ∈ ts -> sql.token_matches a1 a2 a3 t = false) ->
  sql.join_user_for_token us ts a1 a2 a3 = sql.Err sql.ErrNoRows.
Proof.
  induction ts as [| t rest IH]; intros Hall; simpl; [reflexivity |].
  rewrite (Hall t) by (apply elem_of_cons; now left).
  apply IH. intros t' Hin. apply Hall. apply elem_of_cons. now right.
Qed.

Lemma join_binding us ts a1 a2 a3 t row :
  t ∈ ts -> sql.token_matches a1 a2 a3 t = true -> us !! sql.user_id t = Some row ->
  exists ir, sql.join_user_for_token us ts a1 a2 a3 = sql.Row ir.
Proof.
  induction ts as [| t' rest IH]; intros Hin Hm Hrow.
  - now apply elem_of_nil in Hin.
  - simpl. destruct (sql.token_matches a1 a2 a3 t') eqn:Hm'.
    + destruct (us !! sql.user_id t') as [row' |] eqn:Hrow'; [eauto |].
      apply elem_of_cons in Hin as [-> | Hin]; [congruence | now apply IH].
    + apply elem_of_cons in Hin as [-> | Hin]; [congruence | now apply IH].
Qed.

(** C6. [GetForToken] looks the token up by the SHA-256 digest of its
    plaintext.  A user it returns is joined through a binding with that
    digest, the given scope and an expiry after the current time.  When no
    binding meets all three conditions the result is [ErrRecordNotFound],
    whichever condition fails; any other store error is returned as it
    is.  The digest is that of SHA-256: 32 bytes for every plaintext, and
    for "abc" the bytes ba7816bf 8f01cfea 414140de 5dae2223 b00361a3
    96177a9c b410ff61 f20015ad. *)
Theorem GetForToken_resolution now fault (db : sql.DB) (tokenScope tokenPlainText : string) :
  (forall u e,
      GetForToken now fault db tokenScope tokenPlainText = (Some u, e) ->
      e = None /\
      exists t row,
        t ∈ sql.tokens db /\
        sql.hash t = sha256.Sum256 (bytes_of tokenPlainText) /\
        sql.scope t = tokenScope /\ now < sql.expiry t /\
        sql.user_id t = ID u /\
        sql.users db !! ID u = Some row /\ u = user_of_row (ID u, row))
  /\ (fault = None ->
      (forall t, t ∈ sql.tokens db ->
                 sql.hash t <> sha256.Sum256 (bytes_of tokenPlainText)
                 \/ sql.scope t <> tokenScope \/ sql.expiry t <= now) ->
      GetForToken now fault db tokenScope tokenPlainText = (None, Some ErrRecordNotFound))
  /\ (forall err, fault = Some err ->
        GetForToken now fault db tokenScope tokenPlainText =
        if errors.Is err sql.ErrNoRows then (None, Some ErrRecordNotFound)
        else (None, Some err))
  /\ (fault = None ->
      forall t row,
        t ∈ sql.tokens db ->
        sql.hash t = sha256.Sum256 (bytes_of tokenPlainText) ->
        sql.scope t = tokenScope -> now < sql.expiry t ->
        sql.users db !! sql.user_id t = Some row ->
        exists u, GetForToken now fault db tokenScope tokenPlainText = (Some u, None))
  /\ length (sha256.Sum256 (bytes_of tokenPlainText)) = 32%nat
  /\ map sha256.byte_Z (sha256.Sum256 (bytes_of "abc"))
     = [0xba; 0x78; 0x16; 0xbf; 0x8f; 0x01; 0xcf; 0xea; 0x41; 0x41; 0x40; 0xde; 0x5d;
        0xae; 0x22; 0x23; 0xb0; 0x03; 0x61; 0xa3; 0x96; 0x17; 0x7a; 0x9c; 0xb4; 0x10;
        0xff; 0x61; 0xf2; 0x00; 0x15; 0xad].
Proof.
  split; [| split; [| split; [| split;
    [| split; [apply sha256_facts.Sum256_length | exact sha256_facts.Sum256_abc]]]]];
    unfold GetForToken, sql.run, sql.select_user_for_token;
    [split |..].
  - destruct fault as [err |]; simpl in *.
    + destruct (errors.Is err sql.ErrNoRows); congruence.
    + destruct (sql.join_user_for_token _ _ _ _ _) as [ir | err];
        [congruence | destruct (errors.Is err sql.ErrNoRows); congruence].
  - destruct fault as [err |]; simpl in *.
    + destruct (errors.Is err sql.ErrNoRows); discriminate.
    + destruct (sql.join_user_for_token _ _ _ _ _) as [ir | err] eqn:Hj;
        [| destruct (errors.Is err sql.ErrNoRows); discriminate].
      injection H as <- <-.
      apply join_row in Hj as (t & Hin & (Hh & Hs & He)%token_matches_true & Hid & Hrow).
      exists t, ir.2. destruct ir as [id row]. simpl in *. auto 10.
  - intros -> Hnone. simpl.
    rewrite join_no_binding; [reflexivity |].
    intros t Hin. destruct (sql.token_matches _ _ _ t) eqn:Hm; [| reflexivity].
    apply token_matches_true in Hm as (Hh & Hs & He).
    destruct (Hnone t Hin) as [H | [H | H]]; [congruence | congruence | lia].
  - intros err ->. reflexivity.
  - intros -> t row Hin Hh Hs He Hrow. simpl.
    destruct (join_binding (sql.users db) (sql.tokens db)
                (sha256.Sum256 (bytes_of tokenPlainText)) tokenScope now t row)
      as [ir ->]; [assumption | now apply token_matches_true | assumption |].
    eauto.
Qed.

(** A store with one token, held as the literal digest of its plaintext and
    valid until instant 1000: the plaintext resolves to its user, and the
    three ways of having no binding all end in the same error. *)
Lemma GetForToken_resolution_witness :
  sql.hash ann_token = sha256.Sum256 (bytes_of "Y3QMGX3PJ3WLRL2YRTQGQ6KRHU")
  /\ GetForToken 999 None two_users "authentication" "Y3QMGX3PJ3WLRL2YRTQGQ6KRHU"
     = (Some (user_of_row (1, ann_row)), None)
  /\ GetForToken 1000 None two_users "authentication" "Y3QMGX3PJ3WLRL2YRTQGQ6KRHU"
     = (None, Some ErrRecordNotFound)
  /\ GetForToken 999 None two_users "activation" "Y3QMGX3PJ3WLRL2YRTQGQ6KRHU"
     = (None, Some ErrRecordNotFound)
  /\ GetForToken 999 None two_users "authentication" "Y3QMGX3PJ3WLRL2YRTQGQ6KRHV"
     = (None, Some ErrRecordNotFound).
Proof.
  assert (sql.hash ann_token = sha256.Sum256 (bytes_of "Y3QMGX3PJ3WLRL2YRTQGQ6KRHU"))
    as Hdigest by (vm_compute; reflexivity).
  split; [exact Hdigest |].
  split; [| split; [| split]].
  - destruct (GetForToken_resolution 999 None two_users "authentication"
                "Y3QMGX3PJ3WLRL2YRTQGQ6KRHU") as (Hsound & _ & _ & Hfound & _).
    destruct (Hfound eq_refl ann_token ann_row) as [u Hu].
    + apply list_elem_of_singleton. reflexivity.
    + exact Hdigest.
    + reflexivity.
    + simpl. lia.
    + reflexivity.
    + rewrite Hu. destruct (Hsound u None Hu) as (_ & t & row & Hin & _ & _ & _ & Hid & Hrow & ->).
      apply list_elem_of_singleton in Hin. subst t. simpl in Hid. rewrite <- Hid in *.
      simpl in Hrow. injection Hrow as <-. reflexivity.
  - apply (GetForToken_resolution 1000 None two_users); [reflexivity |].
    intros t [-> | []%elem_of_nil]%elem_of_cons. right. right. simpl. lia.
  - apply (GetForToken_resolution 999 None two_users); [reflexivity |].
    intros t [-> | []%elem_of_nil]%elem_of_cons. right. left. simpl. discriminate.
  - apply (GetForToken_resolution 999 None two_users); [reflexivity |].
    intros t [-> | []%elem_of_nil]%elem_of_cons. left. vm_compute. discriminate.
Defined.

(** the row an [Update] of [user] writes over [old] *)
Lemma Update_success fault db user db' user' :
  Update fault db user = (db', Returns (user', None)) ->
  fault = None /\
  exists old,
    sql.users db !! ID user = Some old /\ sql.version old = Version user /\
    sql.email_taken db (Some (ID user)) (Email user) = false /\
    db' = {| sql.users :=
               <[ID user := {| sql.created_at := sql.created_at old;
                               sql.name := Name user;
                               sql.email := Email user;
                               sql.password_hash := password.Hash (Password user);
                               sql.activated := Activated user;
                               sql.version := sql.version old + 1 |}]> (sql.users db);
             sql.tokens := sql.tokens db;
             sql.users_id_seq := sql.users_id_seq db |} /\
    user' = with_Version user (sql.version old + 1).
Proof.
  unfold Update.
  destruct (sql.run fault db _) as [db1 [v | err]] eqn:Hrun.
  - intros [= <- <-]. unfold sql.run in Hrun.
    destruct fault as [err |]; [discriminate |].
    unfold sql.update_user in Hrun.
    destruct (sql.users db !! ID user) as [old |] eqn:Hold; [| discriminate].
    destruct (sql.version old =? Version user) eqn:Hv; [| discriminate].
    destruct (sql.email_taken db (Some (ID user)) (Email user)) eqn:Htaken; [discriminate |].
    cbn [sql.version] in Hrun. injection Hrun as <- <-.
    split; [reflexivity |]. exists old. apply Z.eqb_eq in Hv. auto.
  - destruct (String.eqb _ _); [discriminate |].
    destruct (errors.Is _ _); discriminate.
Qed.

(** C7. A successful [Update] is a compare-and-swap on (id, version): the
    store holds a row with the caller's id and version, that row alone is
    rewritten, its version goes up by exactly one, and the new version is
    written back into the [User]. *)
Theorem Update_compare_and_swap fault (db : sql.DB) (user : User) db' user' :
  Update fault db user = (db', Returns (user', None)) ->
  exists old new,
    sql.users db !! ID user = Some old /\ sql.version old = Version user
    /\ sql.users db' !! ID user = Some new
    /\ sql.version new = Version user + 1
    /\ sql.name new = Name user /\ sql.email new = Email user
    /\ sql.password_hash new = password.Hash (Password user)
    /\ sql.activated new = Activated user
    /\ sql.created_at new = sql.created_at old
    /\ (forall id, id <> ID user -> sql.users db' !! id = sql.users db !! id)
    /\ sql.tokens db' = sql.tokens db
    /\ Version user' = Version user + 1
    /\ user' = with_Version user (Version user + 1).
Proof.
  intros (_ & old & Hold & Hv & _ & -> & ->)%Update_success.
  eexists old, _. cbn [sql.users sql.tokens].
  split; [exact Hold |]. split; [exact Hv |].
  split; [apply lookup_insert_eq |]. rewrite Hv. cbn.
  repeat split; try reflexivity.
  intros id Hid. now apply lookup_insert_ne.
Qed.

Lemma Update_compare_and_swap_witness :
  Update None two_users bob
  = ((Update None two_users bob).1, Returns (with_Version bob 5, None))
  /\ Version bob = 4
  /\ (sql.version <$> sql.users (Update None two_users bob).1 !! 2) = Some 5
  /\ sql.users (Update None two_users bob).1 !! 1 = Some ann_row.
Proof.
  assert (Update None two_users bob
          = ((Update None two_users bob).1, Returns (with_Version bob 5, None)))
    as Hup by (vm_compute; reflexivity).
  destruct (Update_compare_and_swap None two_users bob _ _ Hup)
    as (old & new & _ & _ & Hnew & Hvnew & _ & _ & _ & _ & _ & Hother & _).
  split; [exact Hup |]. split; [reflexivity |].
  split; [change (ID bob) with 2 in Hnew; rewrite Hnew; simpl; now rewrite Hvnew |].
  rewrite Hother by discriminate. reflexivity.
Defined.

(** [Update] reports a store without a matching row as an edit conflict. *)
Lemma Update_edit_conflict db user :
  (sql.update_user db (Name user) (Email user) (password.Hash (Password user))
     (Activated user) (ID user) (Version user)).2 = sql.Err sql.ErrNoRows ->
  Update None db user = (db, Returns (user, Some ErrEditConflict)).
Proof.
  unfold Update, sql.run.
  destruct (sql.update_user _ _ _ _ _ _ _) as [db' res] eqn:Hup. simpl. intros ->.
  assert (db' = db) as ->.
  { unfold sql.update_user in Hup.
    repeat (match type of Hup with context [match ?x with _ => _ end] => destruct x end);
      congruence. }
  reflexivity.
Qed.

(** What [Update] makes of the store's report of a duplicate email. *)
Lemma Update_unique_violation db user :
  (sql.update_user db (Name user) (Email user) (password.Hash (Password user))
     (Activated user) (ID user) (Version user)).2
  = sql.Err (sql.unique_violation "users_email_key") ->
  Update None db user = (db, Returns (user, Some (sql.unique_violation "users_email_key"))).
Proof.
  unfold Update, sql.run.
  destruct (sql.update_user _ _ _ _ _ _ _) as [db' res] eqn:Hup. simpl. intros ->.
  assert (db' = db) as ->.
  { unfold sql.update_user in Hup.
    repeat (match type of Hup with context [match ?x with _ => _ end] => destruct x end);
      congruence. }
  reflexivity.
Qed.

(** C3, at the failing input.  Bob, loaded at version 4, is updated to
    carry Ann's email.  The store reports the violated constraint
    [users_email_key]; [Update] tests for another name and passes the
    driver's error through, where [Insert] returns [ErrDuplicateEmail]. *)
Theorem Update_duplicate_email_unmapped :
  (sql.update_user two_users (Name bob_as_ann) (Email bob_as_ann)
     (password.Hash (Password bob_as_ann)) (Activated bob_as_ann)
     (ID bob_as_ann) (Version bob_as_ann)).2
  = sql.Err (sql.unique_violation "users_email_key")
  /\ Update None two_users bob_as_ann
     = (two_users, Returns (bob_as_ann, Some (sql.unique_violation "users_email_key")))
  /\ sql.unique_violation "users_email_key" <> ErrDuplicateEmail
  /\ errors.Is (sql.unique_violation "users_email_key") ErrDuplicateEmail = false
  /\ Insert 30 None two_users bob_as_ann
     = (two_users, Returns (bob_as_ann, Some ErrDuplicateEmail)).
Proof.
  split; [vm_compute; reflexivity |].
  split; [apply Update_unique_violation; vm_compute; reflexivity |].
  split; [discriminate |].
  split; [reflexivity |].
  vm_compute. reflexivity.
Qed.

(** C5 as stated fails for [Insert]: handed a user without a hash it
    does not panic, it returns. *)
Lemma Insert_nil_hash_returns :
  password.Hash (Password alice) = None /\
  (exists db' r, Insert 5 None empty_db alice = (db', Returns r)) /\
  forall db' msg, Insert 5 None empty_db alice <> (db', Panics msg).
Proof.
  split; [reflexivity |]. split.
  - eexists _, _. vm_compute. reflexivity.
  - intros db' msg. vm_compute. discriminate.
Qed.

Lemma Insert_returns now fault db user :
  exists db' r, Insert now fault db user = (db', Returns r).
Proof.
  unfold Insert.
  destruct (sql.run _ _ _) as [db' [[[id created] version] | err]]; [eauto |].
  destruct (String.eqb _ _); eauto.
Qed.

Lemma Update_returns fault db user :
  exists db' r, Update fault db user = (db', Returns r).
Proof.
  unfold Update.
  destruct (sql.run _ _ _) as [db' [version | err]]; [eauto |].
  destruct (String.eqb _ _); [eauto |]. destruct (errors.Is _ _); eauto.
Qed.

(** what a successful [Insert] or [Update] has handed to the store *)
Lemma Insert_stored_row now fault db user db' user' :
  Insert now fault db user = (db', Returns (user', None)) ->
  sql.users db' !! ID user'
  = Some {| sql.created_at := CreatedAt user'; sql.name := Name user;
            sql.email := Email user;
            sql.password_hash := password.Hash (Password user);
            sql.activated := Activated user; sql.version := Version user' |}.
Proof.
  unfold Insert.
  destruct (sql.run fault db _) as [db1 [[[id created] version] | err]] eqn:Hrun.
  - intros [= <- <-]. unfold sql.run in Hrun.
    destruct fault as [err |]; [discriminate |].
    unfold sql.insert_user in Hrun.
    destruct (sql.email_taken db None (Email user)); [discriminate |].
    destruct (bool_decide (is_Some (sql.users db !! sql.users_id_seq db)));
      [discriminate |].
    injection Hrun as <- <- <- <-. simpl. apply lookup_insert_eq.
  - destruct (String.eqb _ _); discriminate.
Qed.

Lemma Update_stored_row fault db user db' user' :
  Update fault db user = (db', Returns (user', None)) ->
  exists created,
    sql.users db' !! ID user
    = Some {| sql.created_at := created; sql.name := Name user;
              sql.email := Email user;
              sql.password_hash := password.Hash (Password user);
              sql.activated := Activated user; sql.version := Version user' |}.
Proof.
  intros (_ & old & _ & _ & _ & -> & ->)%Update_success.
  exists (sql.created_at old). simpl. apply lookup_insert_eq.
Qed.

(** C5 (amended). The guard against a missing hash is in [ValidateUser]:
    it records its field checks, whatever the hash, and then panics when
    [user.Password.Hash] is nil and returns otherwise.  [Insert] and
    [Update] have no such guard and never panic: they hand the hash of the
    user, nil included, to the store, so that after a call that succeeds the
    row of the user holds that hash, and an error of the store is returned,
    mapped as for any other user. *)
Theorem nil_hash_guard (EmailRX : validator.Regexp) (CommonPasswords : list string)
    (v : validator.Validator) (user : User) :
  ((ValidateUser EmailRX CommonPasswords v user).2 = Panics "missing password hash for user"
   <-> password.Hash (Password user) = None)
  /\ ((ValidateUser EmailRX CommonPasswords v user).2 = Returns tt
      <-> password.Hash (Password user) <> None)
  /\ (forall k,
        validator.failed k (ValidateUser EmailRX CommonPasswords v user).1 <->
        validator.failed k v
        \/ (k = "name" /\
            (Name user = EmptyString \/ (500 < String.length (Name user))%nat))
        \/ (k = "email" /\ (Email user = EmptyString \/ EmailRX (Email user) = false))
        \/ (exists plain, password.PlainText (Password user) = Some plain /\
              ((k = "password" /\
                (plain = EmptyString \/ (String.length plain < 8)%nat
                 \/ (72 < String.length plain)%nat))
               \/ (k = "Password" /\ plain ∈ CommonPasswords))))
  /\ (forall now fault db db' user',
        Insert now fault db user = (db', Returns (user', None)) ->
        sql.password_hash <$> sql.users db' !! ID user'
        = Some (password.Hash (Password user)))
  /\ (forall fault db db' user',
        Update fault db user = (db', Returns (user', None)) ->
        sql.password_hash <$> sql.users db' !! ID user
        = Some (password.Hash (Password user)))
  /\ (forall now db err,
        exists db' user',
          Insert now (Some err) db user
          = (db', Returns (user',
                           Some (if String.eqb (errors.Error err)
                                      (errors.Error (sql.unique_violation "users_email_key"))
                                 then ErrDuplicateEmail else err))))
  /\ (forall db err,
        exists db' user',
          Update (Some err) db user
          = (db', Returns (user',
                           Some (if String.eqb (errors.Error err)
                                      (errors.Error (sql.unique_violation "user_email_key"))
                                 then ErrDuplicateEmail
                                 else if errors.Is err sql.ErrNoRows then ErrEditConflict
                                      else err))))
  /\ (forall now fault db db' msg, Insert now fault db user <> (db', Panics msg))
  /\ (forall fault db db' msg, Update fault db user <> (db', Panics msg)).
Proof.
  split; [| split; [| split; [| split; [| split; [| split; [| split; [| split]]]]]]].
  - unfold ValidateUser.
    destruct (password.Hash (Password user)); simpl; split; congruence.
  - unfold ValidateUser.
    destruct (password.Hash (Password user)); simpl; split; congruence.
  - intros k. apply validation_facts.failed_ValidateUser_bytes.
  - intros now fault db db' user' H.
    now rewrite (Insert_stored_row _ _ _ _ _ _ H).
  - intros fault db db' user' H.
    destruct (Update_stored_row _ _ _ _ _ H) as [created ->]. reflexivity.
  - intros now db err. unfold Insert, sql.run, sql.unique_violation. simpl.
    destruct (String.eqb _ _); eauto.
  - intros db err. unfold Update, sql.run, sql.unique_violation. simpl.
    destruct (String.eqb _ _); [eauto |]. destruct (errors.Is _ _); eauto.
  - intros now fault db db' msg H.
    destruct (Insert_returns now fault db user) as (db1 & r & Hr). congruence.
  - intros fault db db' msg H.
    destruct (Update_returns fault db user) as (db1 & r & Hr). congruence.
Qed.

(** The anonymous user has neither name, email nor hash: [ValidateUser]
    records both failures and panics.  Alice has no hash either: [Insert]
    stores her with none, and returns the error of a store that is down. *)
Lemma nil_hash_guard_witness :
  ((ValidateUser contains_at denylist validator.New AnonymousUser).2
   = Panics "missing password hash for user"
   /\ validator.failed "name" (ValidateUser contains_at denylist validator.New AnonymousUser).1
   /\ validator.failed "email"
        (ValidateUser contains_at denylist validator.New AnonymousUser).1)
  /\ (exists db',
        Insert 5 None empty_db alice = (db', Returns (with_generated alice 1 5 1, None))
        /\ sql.password_hash <$> sql.users db' !! 1 = Some None)
  /\ (exists db' user',
        Insert 5 (Some store_down) empty_db alice = (db', Returns (user', Some store_down))).
Proof.
  split; [| split].
  - destruct (nil_hash_guard contains_at denylist validator.New AnonymousUser)
      as (Hpanic & _ & Hchecks & _).
    split; [apply Hpanic; reflexivity |].
    split; apply Hchecks; right.
    + left. split; [reflexivity | left; reflexivity].
    + right. left. split; [reflexivity | left; reflexivity].
  - destruct (nil_hash_guard contains_at denylist validator.New alice)
      as (_ & _ & _ & Hinsert & _).
    eexists. split; [vm_compute; reflexivity |].
    exact (Hinsert 5 None empty_db _ (with_generated alice 1 5 1)
             ltac:(vm_compute; reflexivity)).
  - destruct (nil_hash_guard contains_at denylist validator.New alice)
      as (_ & _ & _ & _ & _ & Hfault & _).
    exact (Hfault 5 empty_db store_down).
Defined.

End users_facts.

(** ** binary64 division of exactly represented integers *)

Module float_facts.

Import data reference rounding.

Lemma digits2_pos_bounds p :
  2 ^ (Zpos (digits2_pos p) - 1) <= Zpos p < 2 ^ Zpos (digits2_pos p).
Proof.
  induction p as [p IH | p IH |]; cbn [digits2_pos].
  - rewrite Pos2Z.inj_succ. replace (Z.succ (Zpos (digits2_pos p)) - 1) with (Zpos (digits2_pos p)) by lia.
    rewrite Z.pow_succ_r by lia.
    replace (2 ^ Zpos (digits2_pos p)) with (2 * 2 ^ (Zpos (digits2_pos p) - 1)) in *
      by (rewrite <- Z.pow_succ_r by lia; f_equal; lia).
    lia.
  - rewrite Pos2Z.inj_succ. replace (Z.succ (Zpos (digits2_pos p)) - 1) with (Zpos (digits2_pos p)) by lia.
    rewrite Z.pow_succ_r by lia.
    replace (2 ^ Zpos (digits2_pos p)) with (2 * 2 ^ (Zpos (digits2_pos p) - 1)) in *
      by (rewrite <- Z.pow_succ_r by lia; f_equal; lia).
    lia.
  - simpl. lia.
Qed.

Lemma digits2_pos_unique p d :
  2 ^ (d - 1) <= Zpos p < 2 ^ d -> Zpos (digits2_pos p) = d.
Proof.
  intros [Hlo Hhi]. pose proof (digits2_pos_bounds p) as [Hlo' Hhi'].
  assert (0 < d) as Hd.
  { destruct (Z.lt_trichotomy d 0) as [Hn | [-> | Hp]]; [| simpl in Hhi; lia | assumption].
    rewrite Z.pow_neg_r in Hhi by assumption. lia. }
  assert (d - 1 < Zpos (digits2_pos p)) by (apply (Z.pow_lt_mono_r_iff 2); lia).
  assert (Zpos (digits2_pos p) - 1 < d) by (apply (Z.pow_lt_mono_r_iff 2); lia).
  lia.
Qed.

Lemma loc_of_shr_record_of_loc m l : loc_of_shr_record (shr_record_of_loc m l) = l.
Proof. destruct l as [| []]; reflexivity. Qed.

Lemma shr_m_of_loc m l : shr_m (shr_record_of_loc m l) = m.
Proof. destruct l as [| []]; reflexivity. Qed.

(** a mantissa of 53 digits is kept, one of 54 digits loses its last *)
Lemma shr_fexp_53 m e l :
  Zpos (digits2_pos m) = 53 -> -1074 <= e ->
  shr_fexp prec emax (Zpos m) e l = (shr_record_of_loc (Zpos m) l, e).
Proof.
  intros Hd He. unfold shr_fexp, fexp, SpecFloat.emin, prec, emax. cbn [Zdigits2].
  rewrite Hd. replace (Z.max (53 + e - 53) (3 - 1024 - 53) - e) with 0 by lia.
  reflexivity.
Qed.

Lemma shr_fexp_54 m e l :
  Zpos (digits2_pos m) = 54 -> -1075 <= e ->
  shr_fexp prec emax (Zpos m) e l = (shr_1 (shr_record_of_loc (Zpos m) l), e + 1).
Proof.
  intros Hd He. unfold shr_fexp, fexp, SpecFloat.emin, prec, emax. cbn [Zdigits2].
  rewrite Hd. replace (Z.max (54 + e - 53) (3 - 1024 - 53) - e) with 1 by lia.
  reflexivity.
Qed.

Lemma round_done s m e :
  2 ^ 52 <= m <= 2 ^ 53 -> -1074 <= e <= 969 ->
  (let '(mrs, e') := shr_fexp prec emax m e loc_Exact in
   match shr_m mrs with
   | 0 => S754_zero s
   | Zpos m' => if e' <=? emax - prec then S754_finite s m' e' else S754_infinity s
   | Zneg _ => S754_nan
   end) = pack s m e.
Proof.
  intros Hm He. unfold pack.
  destruct (Z.eqb_spec m (2 ^ 53)) as [-> | Hne].
  - change (2 ^ 53) with (Zpos (Z.to_pos (2 ^ 53))).
    rewrite shr_fexp_54 by (try reflexivity; lia).
    cbn -[Z.leb]. unfold emax, prec.
    destruct (Z.leb_spec (e + 1) (1024 - 53)); [reflexivity | lia].
  - destruct m as [| p |]; try lia.
    rewrite shr_fexp_53 by (try lia; apply digits2_pos_unique; lia).
    cbn -[Z.leb]. unfold emax, prec.
    destruct (Z.leb_spec e (1024 - 53)); [reflexivity | lia].
Qed.

Lemma round_nearest_even_bounds m l :
  m <= round_nearest_even m l <= m + 1.
Proof. destruct l as [| []]; simpl; try lia. destruct (Z.even m); lia. Qed.

Lemma binary_round_aux_53 s m e l :
  Zpos (digits2_pos m) = 53 -> -1074 <= e <= 969 ->
  binary_round_aux prec emax s (Zpos m) e l = pack s (round_nearest_even (Zpos m) l) e.
Proof.
  intros Hd He. unfold binary_round_aux.
  rewrite shr_fexp_53 by (try assumption; lia).
  rewrite shr_m_of_loc, loc_of_shr_record_of_loc.
  apply round_done; [| assumption].
  pose proof (round_nearest_even_bounds (Zpos m) l).
  pose proof (digits2_pos_bounds m) as Hb. rewrite Hd in Hb.
  change (2 ^ (53 - 1)) with (2 ^ 52) in Hb. lia.
Qed.

Lemma halved_m p l : shr_m (halved (Zpos p) l) = Zpos p / 2.
Proof.
  unfold halved.
  destruct p as [p | p |], l as [| []]; cbn [shr_1 shr_record_of_loc shr_m orb];
    try reflexivity;
    first [ rewrite Pos2Z.inj_xI; apply (Z.div_unique _ _ _ 1); lia
          | rewrite Pos2Z.inj_xO; apply (Z.div_unique _ _ _ 0); lia ].
Qed.

Lemma binary_round_aux_54 s m e l :
  Zpos (digits2_pos m) = 54 -> -1075 <= e <= 968 ->
  binary_round_aux prec emax s (Zpos m) e l
  = pack s (round_nearest_even (Zpos m / 2) (loc_of_shr_record (halved (Zpos m) l))) (e + 1).
Proof.
  intros Hd He. unfold binary_round_aux.
  rewrite shr_fexp_54 by (try assumption; lia).
  fold (halved (Zpos m) l). rewrite halved_m.
  apply round_done; [| lia].
  pose proof (round_nearest_even_bounds (Zpos m / 2) (loc_of_shr_record (halved (Zpos m) l))).
  pose proof (digits2_pos_bounds m) as Hb. rewrite Hd in Hb.
  change (2 ^ (54 - 1)) with (2 ^ 53) in Hb.
  assert (2 ^ 52 <= Zpos m / 2 < 2 ^ 53).
  { split; [apply Z.div_le_lower_bound | apply Z.div_lt_upper_bound]; lia. }
  lia.
Qed.

(** what the rounding of a halved mantissa can be *)
Lemma round_halved p l :
  let m1 := round_nearest_even (Zpos p / 2) (loc_of_shr_record (halved (Zpos p) l)) in
  Zpos p / 2 <= m1 <= Zpos p / 2 + 1
  /\ (Z.even (Zpos p) = true -> m1 = Zpos p / 2)
  /\ (Z.even (Zpos p) = false -> l <> loc_Exact -> m1 = Zpos p / 2 + 1).
Proof.
  cbv zeta. split; [apply round_nearest_even_bounds |].
  unfold halved.
  destruct p as [p | p |], l as [| []];
    cbn [shr_1 shr_record_of_loc loc_of_shr_record orb round_nearest_even Z.even];
    split; intros; try reflexivity; try discriminate; try congruence.
Qed.

(** what the rounding of a quotient with remainder [r] out of [n] can be *)
Lemma round_new_location q n r :
  0 < n -> 0 <= r < n ->
  let m1 := round_nearest_even q (new_location n r) in
  q <= m1 <= q + 1
  /\ (r = 0 -> m1 = q /\ new_location n r = loc_Exact)
  /\ (r <> 0 -> new_location n r <> loc_Exact)
  /\ (2 * r < n -> m1 = q)
  /\ (n < 2 * r -> m1 = q + 1).
Proof.
  intros Hn Hr. cbv zeta. split; [apply round_nearest_even_bounds |].
  unfold new_location, new_location_even, new_location_odd.
  destruct (Z.eqb_spec r 0) as [-> | Hr0].
  - destruct (Z.even n); cbn [Z.eqb round_nearest_even];
      repeat split; intros; try reflexivity; try lia; congruence.
  - apply Z.eqb_neq in Hr0 as Hr0'.
    destruct (Z.even n) eqn:Hev; rewrite Hr0'.
    + destruct (Z.compare_spec (2 * r) n); cbn [round_nearest_even];
        repeat split; intros; try lia; try discriminate.
    + destruct (Z.compare_spec (2 * r + 1) n); cbn [round_nearest_even];
        repeat split; intros; try lia; try discriminate.
Qed.

Lemma iter_xO p k : Zpos (Pos.iter xO p k) = Zpos p * 2 ^ Zpos k.
Proof.
  induction k as [| k IH] using Pos.peano_ind.
  - simpl. lia.
  - rewrite Pos.iter_succ, Pos2Z.inj_xO, IH, Pos2Z.inj_succ, Z.pow_succ_r by lia. lia.
Qed.

Lemma pack_normal s m e :
  0 < m < 2 ^ 53 -> pack s m e = S754_finite s (Z.to_pos m) e.
Proof. intros Hm. unfold pack. destruct (Z.eqb_spec m (2 ^ 53)); [lia | reflexivity]. Qed.

(** An integer of magnitude at most [2^53] converts without rounding, to
    a mantissa of 53 digits. *)
Lemma binary_round_exact s p :
  Zpos p <= 2 ^ 53 ->
  exists m e,
    binary_round prec emax s p 0 = S754_finite s m e
    /\ Zpos (digits2_pos m) = 53 /\ -52 <= e <= 1
    /\ Zpos m * 2 ^ (e + 52) = Zpos p * 2 ^ 52.
Proof.
  intros Hp. pose proof (digits2_pos_bounds p) as Hb.
  set (d := Zpos (digits2_pos p)) in *.
  assert (0 < d) as Hd0 by (unfold d; lia).
  assert (d <= 54) as Hd54.
  { destruct (Z.le_gt_cases d 54) as [H | H]; [assumption |].
    assert (2 ^ 54 <= 2 ^ (d - 1)) by (apply Z.pow_le_mono_r; lia). lia. }
  unfold binary_round.
  assert (fexp prec emax (Zpos (digits2_pos p) + 0) = d - 53) as ->
      by (unfold fexp, SpecFloat.emin, prec, emax; fold d; lia).
  unfold shl_align.
  destruct (d - 53 - 0) as [| k | k] eqn:Hk.
  - assert (d = 53) as Hd by lia.
    rewrite binary_round_aux_53 by (try assumption; lia).
    cbn [round_nearest_even]. rewrite Hd in Hb. change (2 ^ (53 - 1)) with (2 ^ 52) in Hb.
    rewrite pack_normal by lia. rewrite Pos2Z.id.
    exists p, 0. repeat split; try assumption; lia.
  - assert (d = 54) as Hd by lia.
    rewrite Hd in Hb. change (2 ^ (54 - 1)) with (2 ^ 53) in Hb.
    assert (p = Z.to_pos (2 ^ 53)) as -> by lia.
    exists (Z.to_pos (2 ^ 52)), 1. destruct s; repeat split; vm_compute; congruence.
  - assert (Zpos k = 53 - d) as Hkd by lia.
    assert (2 ^ 52 <= Zpos (Pos.iter xO p k) < 2 ^ 53) as Hm.
    { rewrite iter_xO, Hkd.
      replace (2 ^ 52) with (2 ^ (d - 1) * 2 ^ (53 - d))
        by (rewrite <- Z.pow_add_r by lia; f_equal; lia).
      replace (2 ^ 53) with (2 ^ d * 2 ^ (53 - d))
        by (rewrite <- Z.pow_add_r by lia; f_equal; lia).
      assert (0 < 2 ^ (53 - d)) by (apply Z.pow_pos_nonneg; lia).
      split; [apply Z.mul_le_mono_nonneg_r | apply Z.mul_lt_mono_pos_r]; lia. }
    assert (Zpos (digits2_pos (Pos.iter xO p k)) = 53) as Hdm
        by (apply digits2_pos_unique; exact Hm).
    rewrite binary_round_aux_53 by (try assumption; lia).
    cbn [round_nearest_even]. rewrite pack_normal by lia. rewrite Pos2Z.id.
    exists (Pos.iter xO p k), (d - 53). repeat split; try assumption; try lia.
    rewrite iter_xO, Hkd, <- Z.mul_assoc, <- Z.pow_add_r by lia.
    f_equal. f_equal. lia.
Qed.

(** The quotient of two floats with 53-digit mantissas: the 106-digit
    numerator is divided, and the quotient, of 53 or 54 digits, is rounded
    to nearest, ties to even. *)
Lemma float64_div_normal sx mx ex sy my ey :
  Zpos (digits2_pos mx) = 53 -> Zpos (digits2_pos my) = 53 ->
  -52 <= ex <= 1 -> -52 <= ey <= 1 ->
  float64_div (S754_finite sx mx ex) (S754_finite sy my ey) =
  let q := (Zpos mx * 2 ^ 53) / Zpos my in
  let l := new_location (Zpos my) ((Zpos mx * 2 ^ 53) mod Zpos my) in
  if q <? 2 ^ 53
  then pack (xorb sx sy) (round_nearest_even q l) (ex - ey - 53)
  else pack (xorb sx sy)
         (round_nearest_even (q / 2) (loc_of_shr_record (halved q l)))
         (ex - ey - 53 + 1).
Proof.
  intros Hdx Hdy Hex Hey.
  pose proof (digits2_pos_bounds mx) as Hbx. rewrite Hdx in Hbx.
  pose proof (digits2_pos_bounds my) as Hby. rewrite Hdy in Hby.
  change (2 ^ (53 - 1)) with (2 ^ 52) in *.
  unfold float64_div, SFdiv, SFdiv_core_binary. cbn [Zdigits2].
  rewrite Hdx, Hdy.
  assert (Z.min (fexp prec emax (53 + ex - (53 + ey))) (ex - ey) = ex - ey - 53) as ->
      by (unfold fexp, SpecFloat.emin, prec, emax; lia).
  replace (ex - ey - (ex - ey - 53)) with 53 by lia.
  rewrite Z.shiftl_mul_pow2 by lia.
  pose proof (Z.div_eucl_eq (Zpos mx * 2 ^ 53) (Zpos my) ltac:(lia)) as Heucl.
  pose proof (Z.mod_pos_bound (Zpos mx * 2 ^ 53) (Zpos my) ltac:(lia)) as Hmod.
  unfold Z.modulo, Z.div in *.
  destruct (Z.div_eucl (Zpos mx * 2 ^ 53) (Zpos my)) as [q r]. cbv zeta.
  assert (2 ^ 52 <= q < 2 ^ 54) as Hq by (change (2 ^ 52) with 4503599627370496 in *; change (2 ^ 53) with 9007199254740992 in *; change (2 ^ 54) with 18014398509481984; nia).
  destruct q as [| pq |]; try lia.
  destruct (Z.ltb_spec (Zpos pq) (2 ^ 53)) as [Hlt | Hge].
  - apply binary_round_aux_53; [apply digits2_pos_unique; lia | lia].
  - apply binary_round_aux_54; [apply digits2_pos_unique; lia | lia].
Qed.

(** *** The arithmetic of rounding a quotient to nearest *)

Lemma cancel_pos x y z : 0 < z -> x * z <= y * z -> x <= y.
Proof. intros Hz H. apply Z.mul_le_mono_pos_r in H; assumption. Qed.

(** With [a / b] scaled by [P] and divided out as [q], remainder [r] out
    of [my], the distance of [q] from [k * P] is tied to the remainder [d]
    of [a] by [b]. *)
Lemma quotient_offset a b my Q P q r k d :
  0 < b -> 0 < my -> 1 <= P ->
  a * my * P = Q * b -> Q = q * my + r -> 0 <= r < my ->
  a = k * b + d -> 0 <= d < b ->
  (q - k * P) * (my * b) + r * b = d * (my * P)
  /\ 0 <= q - k * P <= P - 1
  /\ (d = 0 -> q = k * P /\ r = 0).
Proof.
  intros Hb Hmy HP HQ Hqr Hr Hk Hd.
  assert ((q - k * P) * (my * b) + r * b = d * (my * P)) as Hkey by (subst a Q; lia).
  set (D := q - k * P) in *.
  assert (0 < my * b) as Hmb by (apply Z.mul_pos_pos; lia).
  assert (0 <= r * b < my * b) as Hrb
      by (split; [apply Z.mul_nonneg_nonneg; lia | apply Z.mul_lt_mono_pos_r; lia]).
  assert (0 <= d * (my * P)) as Hdn by (apply Z.mul_nonneg_nonneg; lia).
  assert (d * (my * P) < b * (my * P)) as Hdm
      by (apply Z.mul_lt_mono_pos_r; [apply Z.mul_pos_pos |]; lia).
  assert (0 <= D) as HD0.
  { destruct (Z.le_gt_cases 0 D); [assumption |].
    assert (D * (my * b) <= (- 1) * (my * b)) by (apply Z.mul_le_mono_nonneg_r; lia). lia. }
  assert (D <= P - 1) as HD1.
  { destruct (Z.le_gt_cases D (P - 1)); [assumption |].
    assert (P * (my * b) <= D * (my * b)) by (apply Z.mul_le_mono_nonneg_r; lia). lia. }
  split; [exact Hkey |]. split; [lia |].
  intros ->.
  assert (D = 0) as HDz.
  { destruct (Z.eq_dec D 0); [assumption |].
    assert (1 * (my * b) <= D * (my * b)) by (apply Z.mul_le_mono_nonneg_r; lia). lia. }
  rewrite HDz in Hkey. split; [unfold D in HDz; lia |].
  assert (r * b = 0) as Hz by lia. apply Z.mul_eq_0 in Hz. lia.
Qed.

(** A quotient of 53 digits, rounded to nearest: exact when [b] divides
    [a], strictly between the neighbouring multiples of [P] otherwise. *)
Lemma nearest_of_53_digits a b my Q P q r m1 k d :
  0 < a <= 2 ^ 53 -> 0 < b -> 0 < my -> 1 <= P ->
  a * my * P = Q * b -> Q = q * my + r -> 0 <= r < my -> 2 ^ 52 <= q ->
  a = k * b + d -> 0 <= d < b ->
  q <= m1 <= q + 1 -> (r = 0 -> m1 = q) -> (2 * r < my -> m1 = q) -> (my < 2 * r -> m1 = q + 1) ->
  (d = 0 -> m1 = k * P) /\ (0 < d -> k * P < m1 < (k + 1) * P).
Proof.
  intros Ha Hb Hmy HP HQ Hqr Hr Hq Hk Hd Hm1 Hexact Hdown Hup.
  change (2 ^ 53) with 9007199254740992 in *. change (2 ^ 52) with 4503599627370496 in *.
  destruct (quotient_offset a b my Q P q r k d Hb Hmy HP HQ Hqr Hr Hk Hd)
    as (Hkey & HD & Hzero).
  assert (4503599627370496 * b <= a * P) as Hscale.
  { apply (cancel_pos _ _ my); [lia |].
    assert (4503599627370496 * (my * b) <= q * (my * b))
      by (apply Z.mul_le_mono_nonneg_r; [apply Z.mul_nonneg_nonneg |]; lia).
    assert (0 <= r * b) by (apply Z.mul_nonneg_nonneg; lia).
    subst Q. lia. }
  assert (a * P <= 9007199254740992 * P) as Hcap by (apply Z.mul_le_mono_nonneg_r; lia).
  assert (b <= 2 * P) as HbP by lia.
  assert (b = 2 * P -> 9007199254740992 <= a) as Hfull.
  { intros ->. apply (cancel_pos _ _ P); lia. }
  split.
  - intros Hd0. destruct (Hzero Hd0) as [Hq0 Hr0]. rewrite (Hexact Hr0). exact Hq0.
  - intros Hdpos. split.
    + destruct (Z.eq_dec (q - k * P) 0) as [HDz | HDnz]; [| lia].
      rewrite HDz in Hkey.
      assert (b < 2 * (d * P)) as Hstrict.
      { assert (1 * P <= d * P) by (apply Z.mul_le_mono_nonneg_r; lia).
        destruct (Z.eq_dec d 1) as [-> | Hd1].
        - destruct (Z.eq_dec b (2 * P)) as [Hb2 | Hb2]; [| lia].
          specialize (Hfull Hb2). subst b. lia.
        - assert (2 * P <= d * P) by (apply Z.mul_le_mono_nonneg_r; lia). lia. }
      assert (my < 2 * r) as Hgt.
      { apply (Z.mul_lt_mono_pos_r b); [lia |].
        assert (0 < my * (2 * (d * P) - b)) by (apply Z.mul_pos_pos; lia). lia. }
      rewrite (Hup Hgt). lia.
    + destruct (Z.eq_dec (q - k * P) (P - 1)) as [HDz | HDnz]; [| lia].
      rewrite HDz in Hkey.
      assert (r * b = my * (b - (b - d) * P)) as Hrb by lia.
      assert (b < 2 * ((b - d) * P)) as Hstrict.
      { assert (1 * P <= (b - d) * P) by (apply Z.mul_le_mono_nonneg_r; lia).
        destruct (Z.eq_dec (b - d) 1) as [Hd1 | Hd1].
        - destruct (Z.eq_dec b (2 * P)) as [Hb2 | Hb2]; [| rewrite Hd1; lia].
          specialize (Hfull Hb2). assert (d = 2 * P - 1) by lia. subst b d. lia.
        - assert (2 * P <= (b - d) * P) by (apply Z.mul_le_mono_nonneg_r; lia). lia. }
      assert (2 * r < my) as Hlt.
      { apply (Z.mul_lt_mono_pos_r b); [lia |].
        assert (0 < my * (2 * ((b - d) * P) - b)) by (apply Z.mul_pos_pos; lia). lia. }
      rewrite (Hdown Hlt). lia.
Qed.

(** The same for a quotient of 54 digits, which loses its last digit [o]
    before it is rounded. *)
Lemma nearest_of_54_digits a b my Q P q r m1 k d h o :
  0 < a <= 2 ^ 53 -> 0 < b -> 0 < my -> 1 <= P -> (P = 1 \/ exists P', P = 2 * P') ->
  a * my * P = Q * b -> Q = q * my + r -> 0 <= r < my -> 2 ^ 53 <= q ->
  a = k * b + d -> 0 <= d < b ->
  q = 2 * h + o -> (o = 0 \/ o = 1) ->
  h <= m1 <= h + 1 -> (o = 0 -> m1 = h) -> (o = 1 -> r <> 0 -> m1 = h + 1) ->
  (d = 0 -> 2 * m1 = k * P) /\ (0 < d -> k * P < 2 * m1 < (k + 1) * P).
Proof.
  intros Ha Hb Hmy HP Hpar HQ Hqr Hr Hq Hk Hd Hqh Ho Hm1 Heven Hodd.
  change (2 ^ 53) with 9007199254740992 in *.
  destruct (quotient_offset a b my Q P q r k d Hb Hmy HP HQ Hqr Hr Hk Hd)
    as (Hkey & HD & Hzero).
  assert (9007199254740992 * b <= a * P) as Hscale.
  { apply (cancel_pos _ _ my); [lia |].
    assert (9007199254740992 * (my * b) <= q * (my * b))
      by (apply Z.mul_le_mono_nonneg_r; [apply Z.mul_nonneg_nonneg |]; lia).
    assert (0 <= r * b) by (apply Z.mul_nonneg_nonneg; lia).
    subst Q. lia. }
  assert (a * P <= 9007199254740992 * P) as Hcap by (apply Z.mul_le_mono_nonneg_r; lia).
  assert (b <= P) as HbP.
  { apply (cancel_pos _ _ 9007199254740992); lia. }
  assert (P <= b -> 9007199254740992 <= a) as Hfull.
  { intros HPb. assert (P = b) by lia. subst b. apply (cancel_pos _ _ P); lia. }
  split.
  - intros Hd0. destruct (Hzero Hd0) as [Hq0 Hr0].
    assert (o = 0) as Ho0.
    { destruct Hpar as [-> | [P' ->]]; [| lia].
      assert (b = 1) by lia. subst b d. lia. }
    rewrite (Heven Ho0). lia.
  - intros Hdpos.
    assert (exists P', P = 2 * P') as [P' HP'] by (destruct Hpar as [-> | H]; [lia | exact H]).
    assert (q - k * P <> 0) as HDnz.
    { intros HDz. rewrite HDz in Hkey.
      assert (r * b < my * b) by (apply Z.mul_lt_mono_pos_r; lia).
      assert (my * b <= my * P) by (apply Z.mul_le_mono_nonneg_l; lia).
      assert (1 * (my * P) <= d * (my * P))
        by (apply Z.mul_le_mono_nonneg_r; [apply Z.mul_nonneg_nonneg |]; lia).
      lia. }
    assert (q - k * P <> P - 1) as HDtop.
    { intros HDz. rewrite HDz in Hkey.
      assert (r * b = my * (b - (b - d) * P)) as Hrb by lia.
      assert (0 <= my * (b - (b - d) * P)) as Hnn
          by (rewrite <- Hrb; apply Z.mul_nonneg_nonneg; lia).
      assert (0 <= b - (b - d) * P) as Hnn' by (apply (Z.mul_nonneg_cancel_l my); lia).
      assert (1 * P <= (b - d) * P) by (apply Z.mul_le_mono_nonneg_r; lia).
      assert (P <= b) as HPb by lia.
      specialize (Hfull HPb).
      assert (b = P) as HbP' by lia.
      rewrite <- HbP' in Hnn'.
      assert ((b - d) * b <= 1 * b) as Hle by lia.
      apply cancel_pos in Hle; [| lia].
      assert (d = 2 * P' - 1) by lia. subst b d P. lia. }
    split.
    + destruct (Z.eq_dec (q - k * P) 1) as [HD1' | HD1']; [| lia].
      assert (o = 1) as Ho1 by (subst P; lia).
      assert (r <> 0) as Hrnz.
      { intros ->. rewrite HD1' in Hkey.
        assert (my * b = my * (d * P)) as Hc by lia.
        apply Z.mul_reg_l in Hc; [| lia].
        assert (1 * P <= d * P) by (apply Z.mul_le_mono_nonneg_r; lia).
        assert (P <= b) as HPb by lia.
        specialize (Hfull HPb).
        assert (d * P <= 1 * P) as Hle by lia.
        apply cancel_pos in Hle; [| lia].
        assert (d = 1) by lia.
        subst d P. lia. }
      rewrite (Hodd Ho1 Hrnz). lia.
    + destruct (Z.eq_dec (q - k * P) (P - 2)) as [HD2 | HD2]; [| lia].
      assert (o = 0) as Ho0 by (subst P; lia).
      rewrite (Heven Ho0). lia.
Qed.

(** *** From the rounded quotient to the page count *)

Lemma ceil_int_double s m e : ceil_int s m (e + 1) = ceil_int s (2 * m) e.
Proof.
  unfold ceil_int.
  destruct (Z.leb_spec 0 e) as [He | He].
  - destruct (Z.leb_spec 0 (e + 1)); [| lia].
    rewrite Z.pow_add_r by lia. change (2 ^ 1) with 2. destruct s; lia.
  - destruct (Z.leb_spec 0 (e + 1)) as [He1 | He1].
    + assert (e = -1) as -> by lia. change (2 ^ (-1 + 1)) with 1. change (2 ^ (- -1)) with 2.
      replace (- (2 * m)) with ((- m) * 2) by lia. replace (2 * m) with (m * 2) by lia.
      rewrite !Z.div_mul by lia. destruct s; lia.
    + replace (2 ^ (- e)) with (2 * 2 ^ (- (e + 1)))
        by (rewrite <- Z.pow_succ_r by lia; f_equal; lia).
      assert (0 < 2 ^ (- (e + 1))) by (apply Z.pow_pos_nonneg; lia).
      replace (- (2 * m)) with (2 * - m) by lia.
      rewrite !Z.div_mul_cancel_l by lia. reflexivity.
Qed.

Lemma ceil_int_nonpos s v t :
  0 <= t -> ceil_int s v (- t) = if s then - (v / 2 ^ t) else - ((- v) / 2 ^ t).
Proof.
  intros Ht. unfold ceil_int.
  destruct (Z.leb_spec 0 (- t)) as [H | H].
  - assert (t = 0) as -> by lia. simpl. rewrite !Z.div_1_r. destruct s; lia.
  - now rewrite Z.opp_involutive.
Qed.

Lemma int_of_normalize c s :
  - 2 ^ 53 <= c <= 2 ^ 53 -> int_of_float64 (binary_normalize prec emax c 0 s) = c.
Proof.
  intros Hc.
  assert (forall sg p, Zpos p <= 2 ^ 53 ->
            int_of_float64 (binary_round prec emax sg p 0) = if sg then Zneg p else Zpos p) as Hround.
  { intros sg p Hp.
    destruct (binary_round_exact sg p Hp) as (m & e & -> & _ & He & Heq).
    unfold int_of_float64.
    assert (0 < 2 ^ 52) by lia.
    destruct (Z.leb_spec 0 e) as [He0 | He0].
    - rewrite Z.pow_add_r, Z.mul_assoc in Heq by lia.
      apply Z.mul_reg_r in Heq; [| lia]. rewrite Heq.
      unfold min_int64, max_int64.
      destruct sg; match goal with |- context [if ?c then _ else _] => destruct c eqn:Hrange end;
        try reflexivity; lia.
    - assert (Zpos m = Zpos p * 2 ^ (- e)) as Hm.
      { apply (Z.mul_reg_r _ _ (2 ^ (e + 52))); [apply Z.pow_nonzero; lia |].
        rewrite Heq, <- Z.mul_assoc, <- Z.pow_add_r by lia. f_equal. f_equal. lia. }
      rewrite Hm, Z.div_mul by (apply Z.pow_nonzero; lia).
      unfold min_int64, max_int64.
      destruct sg; match goal with |- context [if ?c then _ else _] => destruct c eqn:Hrange end;
        try reflexivity; lia. }
  destruct c as [| p | p]; cbn [binary_normalize].
  - reflexivity.
  - apply Hround. lia.
  - apply Hround. lia.
Qed.

Lemma int_Ceil_finite s m e :
  Zpos m <= 2 ^ 53 -> e <= 3 ->
  int_of_float64 (math_Ceil (S754_finite s m e)) = ceil_int s (Zpos m) e.
Proof.
  intros Hm He. unfold math_Ceil, ceil_int.
  destruct (Z.leb_spec 0 e) as [He0 | He0].
  - unfold int_of_float64.
    destruct (Z.leb_spec 0 e); [| lia].
    assert (0 < 2 ^ e <= 2 ^ 3) by (split; [apply Z.pow_pos_nonneg | apply Z.pow_le_mono_r]; lia).
    assert (0 < Zpos m * 2 ^ e <= 2 ^ 53 * 2 ^ 3) by (split; [| apply Z.mul_le_mono_nonneg]; lia).
    unfold min_int64, max_int64.
    destruct s; match goal with |- context [if ?c then _ else _] => destruct c eqn:Hrange end;
      try reflexivity; lia.
  - assert (0 < 2 ^ (- e)) as Hpow by (apply Z.pow_pos_nonneg; lia).
    assert (0 <= Zpos m / 2 ^ (- e) <= Zpos m).
    { split; [apply Z.div_pos; lia |]. apply Z.div_le_upper_bound; [lia |]. nia. }
    assert (- Zpos m <= (- Zpos m) / 2 ^ (- e) <= 0).
    { split; [apply Z.div_le_lower_bound; [lia |]; nia |].
      apply Z.div_le_upper_bound; lia. }
    apply int_of_normalize. destruct s; lia.
Qed.

Lemma int_Ceil_pack s m e :
  2 ^ 52 <= m <= 2 ^ 53 -> e <= 2 ->
  int_of_float64 (math_Ceil (pack s m e)) = ceil_int s m e.
Proof.
  intros Hm He. unfold pack.
  destruct (Z.eqb_spec m (2 ^ 53)) as [-> | Hne].
  - rewrite int_Ceil_finite by (try reflexivity; lia).
    now rewrite ceil_int_double.
  - rewrite int_Ceil_finite by (rewrite ?Z2Pos.id; lia).
    now rewrite Z2Pos.id by lia.
Qed.

Lemma ceiling_of_bounds (s : bool) v P a b k d :
  0 < P -> 0 < b -> a = k * b + d -> 0 <= d < b ->
  (d = 0 -> v = k * P) -> (0 < d -> k * P < v < (k + 1) * P) ->
  (if s then - (v / P) else - ((- v) / P)) = if s then - (a / b) else ceiling_div a b.
Proof.
  intros HP Hb Ha Hd Hexact Hinexact. unfold ceiling_div.
  assert (a / b = k) as -> by (symmetry; apply (Z.div_unique_pos _ _ _ d); lia).
  destruct (Z.eq_dec d 0) as [Hd0 | Hd0].
  - rewrite (Hexact Hd0). subst d.
    replace (- a) with ((- k) * b) by lia.
    replace (- (k * P)) with ((- k) * P) by lia.
    rewrite !Z.div_mul by lia. destruct s; lia.
  - destruct Hinexact as [Hlo Hhi]; [lia |].
    assert (v / P = k) as -> by (symmetry; apply (Z.div_unique_pos _ _ _ (v - k * P)); lia).
    assert ((- v) / P = - (k + 1)) as ->
        by (symmetry; apply (Z.div_unique_pos _ _ _ ((k + 1) * P - v)); lia).
    assert ((- a) / b = - (k + 1)) as ->
        by (symmetry; apply (Z.div_unique_pos _ _ _ (b - d)); lia).
    reflexivity.
Qed.

(** For integers of magnitude at most [2^53] the float quotient, rounded
    up to an integer, is the ceiling of the exact quotient. *)
Lemma quotient_ceiling s pa pb :
  Zpos pa <= 2 ^ 53 -> Zpos pb <= 2 ^ 53 ->
  int_of_float64
    (math_Ceil (float64_div (binary_round prec emax s pa 0)
                            (binary_round prec emax false pb 0)))
  = if s then - (Zpos pa / Zpos pb) else ceiling_div (Zpos pa) (Zpos pb).
Proof.
  intros Ha Hb.
  destruct (binary_round_exact s pa Ha) as (mx & ex & -> & Hdx & Hex & Heqx).
  destruct (binary_round_exact false pb Hb) as (my & ey & -> & Hdy & Hey & Heqy).
  rewrite float64_div_normal by assumption. cbv zeta. rewrite xorb_false_r.
  pose proof (digits2_pos_bounds mx) as Hbx. rewrite Hdx in Hbx.
  pose proof (digits2_pos_bounds my) as Hby. rewrite Hdy in Hby.
  change (2 ^ (53 - 1)) with (2 ^ 52) in *.
  set (a := Zpos pa) in *. set (b := Zpos pb) in *.
  set (Q := Zpos mx * 2 ^ 53). set (t := 53 + ey - ex).
  assert (0 < a) as Ha0 by (unfold a; lia).
  assert (0 < b) as Hb0 by (unfold b; lia).
  assert (0 <= t) as Ht by (unfold t; lia).
  assert (0 < 2 ^ t) as HP by (apply Z.pow_pos_nonneg; lia).
  assert (a * Zpos my * 2 ^ t = Q * b) as Hkey.
  { assert (2 ^ (ex + 52) * 2 ^ t = 2 ^ 53 * 2 ^ (ey + 52)) as Hpow
        by (rewrite <- !Z.pow_add_r by lia; f_equal; unfold t; lia).
    apply (Z.mul_reg_r _ _ (2 ^ 52)); [lia |].
    transitivity (Zpos mx * Zpos my * (2 ^ (ex + 52) * 2 ^ t)).
    - replace (a * Zpos my * 2 ^ t * 2 ^ 52) with ((a * 2 ^ 52) * Zpos my * 2 ^ t) by ring.
      rewrite <- Heqx. ring.
    - rewrite Hpow.
      replace (Q * b * 2 ^ 52) with (Zpos mx * 2 ^ 53 * (b * 2 ^ 52)) by (unfold Q; ring).
      rewrite <- Heqy. ring. }
  pose proof (Z.div_mod Q (Zpos my) ltac:(lia)) as HQ.
  pose proof (Z.mod_pos_bound Q (Zpos my) ltac:(lia)) as Hr.
  pose proof (Z.div_mod a b ltac:(lia)) as Hab.
  pose proof (Z.mod_pos_bound a b ltac:(lia)) as Hd.
  set (q := Q / Zpos my) in *. set (r := Q mod Zpos my) in *.
  assert (2 ^ 52 <= q < 2 ^ 54) as Hq.
  { unfold q. split.
    - apply Z.div_le_lower_bound; [lia |]. unfold Q.
      change (2 ^ 53) with 9007199254740992 in *. change (2 ^ 52) with 4503599627370496 in *. nia.
    - apply Z.div_lt_upper_bound; [lia |]. unfold Q.
      change (2 ^ 53) with 9007199254740992 in *. change (2 ^ 52) with 4503599627370496 in *.
      change (2 ^ 54) with 18014398509481984. nia. }
  pose proof (round_new_location q (Zpos my) r ltac:(lia) Hr) as Hloc. cbv zeta in Hloc.
  destruct Hloc as (Hm1 & Hexact & Hsticky & Hdown & Hup).
  destruct (Z.ltb_spec q (2 ^ 53)) as [Hlt | Hge].
  - rewrite int_Ceil_pack by lia.
    replace (ex - ey - 53) with (- t) by (unfold t; lia).
    rewrite ceil_int_nonpos by assumption.
    destruct (nearest_of_53_digits a b (Zpos my) Q (2 ^ t) q r
                (round_nearest_even q (new_location (Zpos my) r)) (a / b) (a mod b)
                ltac:(lia) ltac:(lia) ltac:(lia) ltac:(lia) Hkey ltac:(lia) Hr ltac:(lia)
                ltac:(lia) Hd Hm1 (fun H => proj1 (Hexact H)) Hdown Hup)
      as [Hex0 Hinex].
    apply (ceiling_of_bounds s _ (2 ^ t) a b (a / b) (a mod b)); try assumption; lia.
  - destruct q as [| pq |] eqn:Hqpos; try lia.
    pose proof (round_halved pq (new_location (Zpos my) r)) as Hhalf. cbv zeta in Hhalf.
    destruct Hhalf as (Hm2 & Heven & Hodd).
    assert (2 ^ 52 <= Zpos pq / 2 < 2 ^ 53) as Hh.
    { split; [apply Z.div_le_lower_bound | apply Z.div_lt_upper_bound]; lia. }
    rewrite int_Ceil_pack by lia.
    rewrite ceil_int_double.
    replace (ex - ey - 53) with (- t) by (unfold t; lia).
    rewrite ceil_int_nonpos by assumption.
    pose proof (Z.div_mod (Zpos pq) 2 ltac:(lia)) as Hq2.
    pose proof (Z.mod_pos_bound (Zpos pq) 2 ltac:(lia)) as Ho.
    assert (Z.even (Zpos pq) = true <-> Zpos pq mod 2 = 0) as Hev.
    { rewrite Zeven_mod. apply Z.eqb_eq. }
    assert (2 ^ t = 1 \/ exists P', 2 ^ t = 2 * P') as Hpar.
    { destruct (Z.eq_dec t 0) as [-> | Htnz]; [now left | right].
      exists (2 ^ (t - 1)). rewrite <- Z.pow_succ_r by lia. f_equal. lia. }
    assert (Zpos pq mod 2 = 0 ->
            round_nearest_even (Zpos pq / 2)
              (loc_of_shr_record (halved (Zpos pq) (new_location (Zpos my) r)))
            = Zpos pq / 2) as Heven'.
    { intros Ho0. apply Heven. now apply Hev. }
    assert (Zpos pq mod 2 = 1 -> r <> 0 ->
            round_nearest_even (Zpos pq / 2)
              (loc_of_shr_record (halved (Zpos pq) (new_location (Zpos my) r)))
            = Zpos pq / 2 + 1) as Hodd'.
    { intros Ho1 Hrnz. apply Hodd.
      - destruct (Z.even (Zpos pq)) eqn:He; [| reflexivity].
        assert (Zpos pq mod 2 = 0) by now apply Hev. lia.
      - now apply Hsticky. }
    destruct (nearest_of_54_digits a b (Zpos my) Q (2 ^ t) (Zpos pq) r
                (round_nearest_even (Zpos pq / 2)
                   (loc_of_shr_record (halved (Zpos pq) (new_location (Zpos my) r))))
                (a / b) (a mod b) (Zpos pq / 2) (Zpos pq mod 2)
                ltac:(lia) ltac:(lia) ltac:(lia) ltac:(lia) Hpar Hkey ltac:(lia) Hr
                ltac:(lia) ltac:(lia) Hd ltac:(lia) ltac:(lia) Hm2 Heven' Hodd')
      as [Hex0 Hinex].
    apply (ceiling_of_bounds s _ (2 ^ t) a b (a / b) (a mod b)); try assumption; lia.
Qed.

(** C9 (amended). With [totalRecords] of magnitude at most [2^53] and
    [pageSize] between 1 and [2^53], the integers that binary64 holds
    exactly, [calculateMetadata] returns the all-zero value when
    [totalRecords] is 0, and otherwise the page, the page size, first page
    1, last page the ceiling of [totalRecords / pageSize], and the total. *)
Theorem calculateMetadata_exact_range (totalRecords page pagesize : Z) :
  - 2 ^ 53 <= totalRecords <= 2 ^ 53 -> 1 <= pagesize <= 2 ^ 53 ->
  calculateMetadata totalRecords page pagesize =
  if totalRecords =? 0
  then {| CurrentPage := 0; Metadata_PageSize := 0; FirstPage := 0;
          LastPage := 0; TotalRecords := 0 |}
  else {| CurrentPage := page; Metadata_PageSize := pagesize; FirstPage := 1;
          LastPage := ceiling_div totalRecords pagesize;
          TotalRecords := totalRecords |}.
Proof.
  intros Ht Hp. unfold calculateMetadata.
  destruct (Z.eqb_spec totalRecords 0) as [| Hnz]; [reflexivity |].
  f_equal. unfold float64_of_int.
  destruct pagesize as [| pb |]; try lia.
  destruct totalRecords as [| pa | pa]; try lia; cbn [binary_normalize].
  - apply (quotient_ceiling false); lia.
  - rewrite (quotient_ceiling true) by lia. reflexivity.
Qed.

Lemma calculateMetadata_exact_range_witness :
  calculateMetadata 95 2 20 =
  {| CurrentPage := 2; Metadata_PageSize := 20; FirstPage := 1; LastPage := 5;
     TotalRecords := 95 |}
  /\ calculateMetadata 0 1 20 =
     {| CurrentPage := 0; Metadata_PageSize := 0; FirstPage := 0; LastPage := 0;
        TotalRecords := 0 |}.
Proof.
  split.
  - rewrite (calculateMetadata_exact_range 95 2 20) by lia. reflexivity.
  - rewrite (calculateMetadata_exact_range 0 1 20) by lia. reflexivity.
Defined.

(** C9 as stated fails beyond [2^53]: with 9007199254740993 records in
    pages of one, the last page is 9007199254740992, one short of the
    ceiling.  A page size beyond [2^53] is rounded as well: -2^53 records
    in pages of 2^53 + 1 give last page -1, where the ceiling is 0. *)
Lemma calculateMetadata_beyond_exact_range :
  1 <= 1
  /\ LastPage (calculateMetadata 9007199254740993 1 1) = 9007199254740992
  /\ ceiling_div 9007199254740993 1 = 9007199254740993
  /\ LastPage (calculateMetadata 9007199254740993 1 1) <> ceiling_div 9007199254740993 1
  /\ LastPage (calculateMetadata (- 9007199254740992) 1 9007199254740993) = - 1
  /\ ceiling_div (- 9007199254740992) 9007199254740993 = 0.
Proof.
  split; [lia |]. split; [vm_compute; reflexivity |].
  split; [vm_compute; reflexivity |].
  split; [vm_compute; discriminate |].
  split; vm_compute; reflexivity.
Qed.

End float_facts.

(** ** The validator *)

Module validator_facts.

Import validator.

Lemma Valid_Check ok key message v :
  Valid (Check ok key message v) = true <-> ok = true /\ Valid v = true.
Proof.
  unfold Valid, Check, AddError. destruct ok; simpl.
  - intuition.
  - rewrite bool_decide_eq_true. split; [| intros [? _]; discriminate].
    intros H. now apply app_eq_nil in H as [_ ?].
Qed.

Lemma Valid_New : Valid validator.New = true.
Proof. reflexivity. Qed.

End validator_facts.

(** ** Validated filters: paging and sorting together *)

Module pagination_facts.

Import validator data reference rounding.

(** [ValidateFilters] on a fresh validator records a failure of "page"
    exactly outside 1..10,000,000, of "page_size" exactly outside 1..100 and
    of "sort" exactly outside the safelist, and leaves the validator valid
    exactly when none of these fails. *)
Theorem ValidateFilters_rules (f : Filters) :
  (failed "page" (ValidateFilters validator.New f) <-> Page f <= 0 \/ 10000000 < Page f)
  /\ (failed "page_size" (ValidateFilters validator.New f)
      <-> PageSize f <= 0 \/ 100 < PageSize f)
  /\ (failed "sort" (ValidateFilters validator.New f) <-> Sort f ∉ SortSafeList f)
  /\ (Valid (ValidateFilters validator.New f) = true
      <-> 1 <= Page f <= 10000000 /\ 1 <= PageSize f <= 100 /\ Sort f ∈ SortSafeList f).
Proof.
  pose proof validation_facts.not_failed_New as HN.
  unfold ValidateFilters, PermittedValue.
  split; [| split; [| split]].
  - rewrite !validation_facts.failed_Check, !Z.ltb_ge, !Z.leb_gt.
    split.
    + intros [[[[[F | [F _]] | [F _]] | [_ F]] | [_ F]] | [_ F]];
        first [now apply HN in F | discriminate | lia].
    + intros [H | H]; [do 4 left; right | do 3 left; right]; now split.
  - rewrite !validation_facts.failed_Check, !Z.ltb_ge, !Z.leb_gt.
    split.
    + intros [[[[[F | [_ F]] | [_ F]] | [F _]] | [F _]] | [_ F]];
        first [now apply HN in F | discriminate | lia].
    + intros [H | H]; [do 2 left; right | left; right]; now split.
  - rewrite !validation_facts.failed_Check, bool_decide_eq_false.
    split.
    + intros [[[[[F | [_ F]] | [_ F]] | [_ F]] | [_ F]] | [F _]];
        first [now apply HN in F | discriminate | assumption].
    + intros H. right. now split.
  - rewrite !validator_facts.Valid_Check, bool_decide_eq_true, !Z.ltb_lt, !Z.leb_le.
    pose proof validator_facts.Valid_New. intuition lia.
Qed.

Lemma ValidateFilters_rules_witness :
  Valid (ValidateFilters validator.New
           {| Page := 3; PageSize := 20; Sort := "-id"; SortSafeList := ["id"; "-id"] |})
  = true
  /\ failed "page" (ValidateFilters validator.New
           {| Page := 0; PageSize := 20; Sort := "-id"; SortSafeList := ["id"; "-id"] |})
  /\ failed "sort" (ValidateFilters validator.New
           {| Page := 3; PageSize := 20; Sort := "name"; SortSafeList := ["id"; "-id"] |}).
Proof.
  split; [| split].
  - apply ValidateFilters_rules. cbn. repeat split; try lia.
    apply list_elem_of_In. simpl. tauto.
  - apply ValidateFilters_rules. cbn. lia.
  - apply ValidateFilters_rules. cbn. intros H. apply list_elem_of_In in H. simpl in H.
    destruct H as [H | [H | []]]; discriminate.
Defined.

Lemma Valid_ValidateFilters f :
  Valid (ValidateFilters validator.New f) = true ->
  1 <= Page f <= 10000000 /\ 1 <= PageSize f <= 100 /\ Sort f ∈ SortSafeList f.
Proof.
  unfold ValidateFilters, PermittedValue.
  rewrite !validator_facts.Valid_Check, bool_decide_eq_true, !Z.ltb_lt, !Z.leb_le. intuition lia.
Qed.

(** Filters that passed [ValidateFilters] never reach the panic of
    [sortColumn]: it returns the sort key without its leading "-". *)
Theorem validated_sortColumn_returns (f : Filters) :
  Valid (ValidateFilters validator.New f) = true ->
  sortColumn f = Returns (strip_dash (Sort f))
  /\ forall msg, sortColumn f <> Panics msg.
Proof.
  intros (_ & _ & Hin)%Valid_ValidateFilters. unfold sortColumn.
  rewrite filters_facts.sortColumn_loop_member by assumption.
  rewrite filters_facts.TrimPrefix_dash. split; [reflexivity | discriminate].
Qed.

Lemma validated_sortColumn_returns_witness :
  sortColumn {| Page := 3; PageSize := 20; Sort := "-id"; SortSafeList := ["id"; "-id"] |}
  = Returns "id".
Proof.
  apply (validated_sortColumn_returns
           {| Page := 3; PageSize := 20; Sort := "-id"; SortSafeList := ["id"; "-id"] |}).
  vm_compute. reflexivity.
Defined.

Lemma offset_validated f :
  1 <= Page f <= 10000000 -> 1 <= PageSize f <= 100 ->
  offset f = (Page f - 1) * PageSize f /\ 0 <= offset f <= 999999900.
Proof.
  intros Hp Hs.
  assert (0 <= (Page f - 1) * PageSize f <= 999999900) as Hbound.
  { split; [apply Z.mul_nonneg_nonneg; lia |].
    change 999999900 with (9999999 * 100). apply Z.mul_le_mono_nonneg; lia. }
  unfold offset, wrap64. rewrite Z.mod_small by lia. lia.
Qed.

(** For filters that passed [ValidateFilters] the limit is between 1 and
    100 and the offset is the exact product (page - 1) * page_size, without
    wrap-around, between 0 and 999,999,900; the next page starts where this
    one ends. *)
Theorem validated_limit_offset (f g : Filters) :
  Valid (ValidateFilters validator.New f) = true ->
  1 <= limit f <= 100
  /\ offset f = (Page f - 1) * PageSize f
  /\ 0 <= offset f <= 999999900
  /\ (Page g = Page f + 1 -> PageSize g = PageSize f -> Page g <= 10000000 ->
      offset g = offset f + limit f).
Proof.
  intros (HP & HS & _)%Valid_ValidateFilters.
  destruct (offset_validated f HP HS) as [Hoff Hrange].
  split; [unfold limit; lia |]. split; [exact Hoff |]. split; [exact Hrange |].
  intros Hg Hs Hcap.
  destruct (offset_validated g) as [Hoffg _]; [lia | lia |].
  rewrite Hoffg, Hoff, Hg, Hs. unfold limit. lia.
Qed.

Lemma validated_limit_offset_witness :
  offset {| Page := 3; PageSize := 20; Sort := "-id"; SortSafeList := ["id"; "-id"] |} = 40
  /\ offset {| Page := 4; PageSize := 20; Sort := "-id"; SortSafeList := ["id"; "-id"] |}
     = 40 + 20.
Proof.
  destruct (validated_limit_offset
              {| Page := 3; PageSize := 20; Sort := "-id"; SortSafeList := ["id"; "-id"] |}
              {| Page := 4; PageSize := 20; Sort := "-id"; SortSafeList := ["id"; "-id"] |})
    as (_ & Hoff & _ & Hnext); [vm_compute; reflexivity |].
  split; [exact Hoff |].
  rewrite Hnext by (cbn; lia). rewrite Hoff. reflexivity.
Defined.

(** With between 1 and [2^53] records, the last page that
    [calculateMetadata] reports is the page that holds the last record; and
    a page that passed validation lies within the last page exactly when its
    offset is below the total. *)
Theorem last_page_holds_last_record (f : Filters) (totalRecords : Z) :
  Valid (ValidateFilters validator.New f) = true ->
  0 < totalRecords <= 2 ^ 53 ->
  FirstPage (calculateMetadata totalRecords (Page f) (PageSize f)) = 1
  /\ 1 <= LastPage (calculateMetadata totalRecords (Page f) (PageSize f))
  /\ (LastPage (calculateMetadata totalRecords (Page f) (PageSize f)) - 1) * PageSize f
     < totalRecords
     <= LastPage (calculateMetadata totalRecords (Page f) (PageSize f)) * PageSize f
  /\ (Page f <= LastPage (calculateMetadata totalRecords (Page f) (PageSize f))
      <-> offset f < totalRecords).
Proof.
  intros Hvalid Ht.
  apply Valid_ValidateFilters in Hvalid as (HP & HS & _).
  destruct (offset_validated f HP HS) as [Hoff _].
  unfold calculateMetadata.
  destruct (Z.eqb_spec totalRecords 0) as [| _]; [lia |]. cbn [FirstPage LastPage].
  unfold float64_of_int.
  destruct totalRecords as [| pa |]; try lia.
  destruct (PageSize f) as [| pb |] eqn:Hps; try lia.
  cbn [binary_normalize].
  rewrite (float_facts.quotient_ceiling false) by lia.
  unfold ceiling_div.
  pose proof (Z.div_mod (- Zpos pa) (Zpos pb) ltac:(lia)) as Hdm.
  pose proof (Z.mod_pos_bound (- Zpos pa) (Zpos pb) ltac:(lia)) as Hr.
  set (q := - Zpos pa / Zpos pb) in *. set (r := (- Zpos pa) mod Zpos pb) in *.
  assert (- q * Zpos pb = Zpos pa + r) as Hq by lia.
  assert (1 <= - q) as Hq1.
  { destruct (Z.le_gt_cases 1 (- q)); [assumption |].
    assert (- q * Zpos pb <= 0 * Zpos pb) by (apply Z.mul_le_mono_nonneg_r; lia). lia. }
  split; [reflexivity |]. split; [exact Hq1 |]. split; [lia |].
  rewrite Hoff. split.
  - intros Hle.
    assert ((Page f - 1) * Zpos pb <= (- q - 1) * Zpos pb)
      by (apply Z.mul_le_mono_nonneg_r; lia).
    lia.
  - intros Hlt. destruct (Z.le_gt_cases (Page f) (- q)); [assumption |].
    assert (- q * Zpos pb <= (Page f - 1) * Zpos pb)
      by (apply Z.mul_le_mono_nonneg_r; lia).
    lia.
Qed.

Lemma last_page_holds_last_record_witness :
  LastPage (calculateMetadata 95 5 20) = 5
  /\ offset {| Page := 5; PageSize := 20; Sort := "id"; SortSafeList := ["id"; "-id"] |} < 95.
Proof.
  destruct (last_page_holds_last_record
              {| Page := 5; PageSize := 20; Sort := "id"; SortSafeList := ["id"; "-id"] |} 95)
    as (_ & Hone & Hwin & Hin); [vm_compute; reflexivity | lia |].
  cbn [Page PageSize] in *.
  assert (LastPage (calculateMetadata 95 5 20) = 5) as HL by lia.
  split; [exact HL |]. apply Hin. lia.
Defined.

End pagination_facts.

(** ** The user repository: lookups, failures and sequences of calls *)

Module repository_facts.

Import validator data reference.

Lemma email_taken_false db self e :
  sql.email_taken db self e = false <->
  forall i r, sql.users db !! i = Some r -> Some i <> self -> sql.email r <> e.
Proof.
  unfold sql.email_taken. rewrite <- not_true_iff_false, existsb_exists. split.
  - intros Hno i r Hl Hi He. apply Hno. exists (i, r). split.
    + apply list_elem_of_In, elem_of_map_to_list. exact Hl.
    + cbn. rewrite andb_true_iff, negb_true_iff, bool_decide_eq_false. split; [exact Hi |].
      now apply String.eqb_eq.
  - intros Hall ([i r] & Hin & Hc). cbn in Hc.
    apply list_elem_of_In, elem_of_map_to_list in Hin.
    rewrite andb_true_iff, negb_true_iff, bool_decide_eq_false in Hc. destruct Hc as [Hi He].
    apply String.eqb_eq in He. exact (Hall i r Hin Hi He).
Qed.

Lemma email_taken_true db self e i r :
  sql.users db !! i = Some r -> Some i <> self -> sql.email r = e ->
  sql.email_taken db self e = true.
Proof.
  intros Hl Hi He. destruct (sql.email_taken db self e) eqn:Ht; [reflexivity |].
  exfalso. exact (proj1 (email_taken_false db self e) Ht i r Hl Hi He).
Qed.

(** what the query by email can answer *)
Lemma select_user_by_email_Row db e ir :
  sql.select_user_by_email db e = sql.Row ir ->
  sql.users db !! ir.1 = Some ir.2 /\ sql.email ir.2 = e.
Proof.
  unfold sql.select_user_by_email.
  destruct (List.filter _ _) as [| ir' rest] eqn:Hf; [discriminate |].
  intros [= ->].
  assert (In ir (List.filter (fun ir0 => String.eqb (sql.email ir0.2) e)
                   (map_to_list (sql.users db)))) as Hin by (rewrite Hf; now left).
  apply filter_In in Hin as [Hin He].
  apply list_elem_of_In in Hin. destruct ir as [i r].
  apply elem_of_map_to_list in Hin. apply String.eqb_eq in He. now split.
Qed.

Lemma select_user_by_email_Err db e err :
  sql.select_user_by_email db e = sql.Err err ->
  err = sql.ErrNoRows /\ forall i r, sql.users db !! i = Some r -> sql.email r <> e.
Proof.
  unfold sql.select_user_by_email.
  destruct (List.filter _ _) as [| ir' rest] eqn:Hf; [| discriminate].
  intros [= <-]. split; [reflexivity |].
  intros i r Hl He.
  assert (In (i, r) (List.filter (fun ir0 => String.eqb (sql.email ir0.2) e)
                       (map_to_list (sql.users db)))) as Hin.
  { apply filter_In. split.
    - apply list_elem_of_In, elem_of_map_to_list. exact Hl.
    - cbn. now apply String.eqb_eq. }
  rewrite Hf in Hin. destruct Hin.
Qed.

Lemma select_user_by_email_unique db e i r :
  sql.users db !! i = Some r -> sql.email r = e ->
  (forall j r', sql.users db !! j = Some r' -> sql.email r' = e -> j = i) ->
  sql.select_user_by_email db e = sql.Row (i, r).
Proof.
  intros Hl He Huniq.
  destruct (sql.select_user_by_email db e) as [[j r'] | err] eqn:Hsel.
  - apply select_user_by_email_Row in Hsel as [Hl' He']. cbn in *.
    assert (j = i) as -> by exact (Huniq j r' Hl' He').
    congruence.
  - apply select_user_by_email_Err in Hsel as [_ Hnone].
    exfalso. exact (Hnone i r Hl He).
Qed.

(** [GetByEmail] returns a user exactly from a row with that email, scanned
    without a plaintext; with no such row it returns [ErrRecordNotFound];
    any other store error is returned as it is. *)
Theorem GetByEmail_resolution fault (db : sql.DB) (e : string) :
  (forall u err,
      GetByEmail fault db e = (Some u, err) ->
      err = None /\ Email u = e /\ password.PlainText (Password u) = None /\
      exists row, sql.users db !! ID u = Some row /\ u = user_of_row (ID u, row))
  /\ (fault = None ->
      (forall i r, sql.users db !! i = Some r -> sql.email r <> e) ->
      GetByEmail fault db e = (None, Some ErrRecordNotFound))
  /\ (fault = None ->
      forall i r, sql.users db !! i = Some r -> sql.email r = e ->
      exists u, GetByEmail fault db e = (Some u, None))
  /\ (forall err, fault = Some err ->
      GetByEmail fault db e =
      if errors.Is err sql.ErrNoRows then (None, Some ErrRecordNotFound)
      else (None, Some err)).
Proof.
  unfold GetByEmail, sql.run.
  split; [| split; [| split]].
  - intros u err. destruct fault as [ferr |]; cbn [snd].
    + destruct (errors.Is ferr sql.ErrNoRows); discriminate.
    + destruct (sql.select_user_by_email db e) as [[i r] | serr] eqn:Hsel;
        [| destruct (errors.Is serr sql.ErrNoRows); discriminate].
      intros [= <- <-].
      apply select_user_by_email_Row in Hsel as [Hl He]. cbn in *.
      repeat split; [exact He | now exists r].
  - intros -> Hnone. cbn [snd].
    destruct (sql.select_user_by_email db e) as [ir | serr] eqn:Hsel.
    + apply select_user_by_email_Row in Hsel as [Hl He].
      exfalso. exact (Hnone _ _ Hl He).
    + apply select_user_by_email_Err in Hsel as [-> _]. reflexivity.
  - intros -> i r Hl He. cbn [snd].
    destruct (sql.select_user_by_email db e) as [ir | serr] eqn:Hsel; [eauto |].
    apply select_user_by_email_Err in Hsel as [_ Hnone].
    exfalso. exact (Hnone _ _ Hl He).
  - intros err ->. reflexivity.
Qed.

Lemma GetByEmail_resolution_witness :
  GetByEmail None two_users "bob@example.com" = (Some bob, None)
  /\ GetByEmail None two_users "carol@example.com" = (None, Some ErrRecordNotFound).
Proof.
  split; [vm_compute; reflexivity |].
  apply (GetByEmail_resolution None two_users "carol@example.com"); [reflexivity |].
  intros i r Hl He.
  destruct (decide (i = 1)) as [-> | H1]; [vm_compute in Hl; injection Hl as <-; discriminate |].
  destruct (decide (i = 2)) as [-> | H2]; [vm_compute in Hl; injection Hl as <-; discriminate |].
  unfold two_users in Hl. cbn [sql.users] in Hl.
  rewrite !lookup_insert_ne, lookup_empty in Hl by congruence. discriminate.
Defined.

(** the shape of a successful [Insert] *)
Lemma Insert_success now fault db user db' user' :
  Insert now fault db user = (db', Returns (user', None)) ->
  fault = None
  /\ sql.email_taken db None (Email user) = false
  /\ sql.users db !! sql.users_id_seq db = None
  /\ db' = {| sql.users :=
                <[sql.users_id_seq db :=
                    {| sql.created_at := now; sql.name := Name user;
                       sql.email := Email user;
                       sql.password_hash := password.Hash (Password user);
                       sql.activated := Activated user; sql.version := 1 |}]>
                  (sql.users db);
              sql.tokens := sql.tokens db;
              sql.users_id_seq := sql.users_id_seq db + 1 |}
  /\ user' = with_generated user (sql.users_id_seq db) now 1.
Proof.
  unfold Insert.
  destruct (sql.run fault db _) as [db1 [[[id created] version] | err]] eqn:Hrun.
  - intros [= <- <-]. unfold sql.run in Hrun.
    destruct fault as [err |]; [discriminate |].
    unfold sql.insert_user in Hrun.
    destruct (sql.email_taken db None (Email user)) eqn:Htaken; [discriminate |].
    destruct (bool_decide (is_Some (sql.users db !! sql.users_id_seq db))) eqn:Hfresh;
      [discriminate |].
    injection Hrun as <- <- <- <-.
    apply bool_decide_eq_false in Hfresh.
    repeat split; try reflexivity.
    destruct (sql.users db !! sql.users_id_seq db) eqn:Hl; [| reflexivity].
    exfalso. apply Hfresh. eauto.
  - destruct (String.eqb _ _); discriminate.
Qed.

(** what a statement that failed leaves behind *)
Lemma update_user_Err db a1 a2 a3 a4 a5 a6 db1 err :
  sql.update_user db a1 a2 a3 a4 a5 a6 = (db1, sql.Err err) ->
  db1 = db /\ (err = sql.ErrNoRows \/ err = sql.unique_violation "users_email_key").
Proof.
  unfold sql.update_user.
  destruct (sql.users db !! a5) as [old |]; [| intros [= <- <-]; auto].
  destruct (sql.version old =? a6); [| intros [= <- <-]; auto].
  destruct (sql.email_taken db (Some a5) a2); [intros [= <- <-]; auto | discriminate].
Qed.

Lemma insert_user_Err now db a1 a2 a3 a4 db1 err :
  sql.insert_user now db a1 a2 a3 a4 = (db1, sql.Err err) -> db1 = db.
Proof.
  unfold sql.insert_user.
  destruct (sql.email_taken db None a2); [now intros [= <- _] |].
  destruct (bool_decide _); [now intros [= <- _] | discriminate].
Qed.

(** On a store that answers, an [Insert] that returns an error has written
    nothing and has left the caller's [User] as it was: the statement is
    refused before a row is scanned.  The error is [ErrDuplicateEmail]
    exactly when a row already has the email. *)
Theorem Insert_refused_changes_nothing now (db : sql.DB) (user : User) db' user' err :
  Insert now None db user = (db', Returns (user', Some err)) ->
  db' = db /\ user' = user
  /\ (err = ErrDuplicateEmail <-> sql.email_taken db None (Email user) = true).
Proof.
  unfold Insert, sql.run, sql.insert_user.
  destruct (sql.email_taken db None (Email user)).
  - cbn. intros [= <- <- <-].
    split; [reflexivity |]. split; [reflexivity |]. split; reflexivity.
  - destruct (bool_decide _); [| discriminate].
    cbn. intros [= <- <- <-].
    split; [reflexivity |]. split; [reflexivity |]. split; discriminate.
Qed.

Lemma Insert_refused_changes_nothing_witness :
  Insert 30 None two_users bob_as_ann = (two_users, Returns (bob_as_ann, Some ErrDuplicateEmail))
  /\ sql.email_taken two_users None "ann@example.com" = true.
Proof.
  assert (Insert 30 None two_users bob_as_ann
          = ((Insert 30 None two_users bob_as_ann).1,
             Returns ((bob_as_ann, Some ErrDuplicateEmail)))) as H
      by (vm_compute; reflexivity).
  destruct (Insert_refused_changes_nothing _ _ _ _ _ _ H) as (Hdb & _ & Hdup).
  split; [rewrite H; now rewrite Hdb | now apply Hdup].
Defined.



(** A successful [Insert] fills [ID], [CreatedAt] and [Version] (which is
    1) from the store and leaves the other fields; the row is stored under
    the new id, which was free; and [GetByEmail] for the user's email then
    returns that user, with the same hash and without the plaintext. *)
Theorem Insert_then_GetByEmail now fault (db : sql.DB) (user : User) db' user' :
  Insert now fault db user = (db', Returns (user', None)) ->
  user' = with_generated user (sql.users_id_seq db) now 1
  /\ sql.users db !! ID user' = None
  /\ (forall i, i <> ID user' -> sql.users db' !! i = sql.users db !! i)
  /\ GetByEmail None db' (Email user)
     = (Some {| ID := ID user'; CreatedAt := now; Name := Name user;
                Email := Email user;
                Password := {| password.PlainText := None;
                               password.Hash := password.Hash (Password user) |};
                Activated := Activated user; Version := 1 |}, None).
Proof.
  intros (_ & Hfree & Hnew & -> & ->)%Insert_success.
  cbn [ID with_generated sql.users].
  split; [reflexivity |]. split; [exact Hnew |].
  split; [intros i Hi; now apply lookup_insert_ne |].
  unfold GetByEmail, sql.run. cbn [snd].
  rewrite (select_user_by_email_unique _ _ (sql.users_id_seq db)
             {| sql.created_at := now; sql.name := Name user; sql.email := Email user;
                sql.password_hash := password.Hash (Password user);
                sql.activated := Activated user; sql.version := 1 |});
    [reflexivity | apply lookup_insert_eq | reflexivity |].
  cbn [sql.users]. intros j r' Hl He.
  destruct (decide (j = sql.users_id_seq db)) as [-> | Hne]; [reflexivity |].
  rewrite lookup_insert_ne in Hl by congruence.
  exfalso. exact (proj1 (email_taken_false db None (Email user)) Hfree j r' Hl ltac:(discriminate) He).
Qed.

Lemma Insert_then_GetByEmail_witness :
  Insert 30 None two_users alice
  = ((Insert 30 None two_users alice).1, Returns (with_generated alice 3 30 1, None))
  /\ GetByEmail None (Insert 30 None two_users alice).1 "alice@example.com"
     = (Some (with_generated alice 3 30 1), None).
Proof.
  assert (Insert 30 None two_users alice
          = ((Insert 30 None two_users alice).1, Returns (with_generated alice 3 30 1, None)))
    as H by (vm_compute; reflexivity).
  split; [exact H |].
  destruct (Insert_then_GetByEmail _ _ _ _ _ _ H) as (_ & _ & _ & Hget).
  exact Hget.
Defined.

(** [Insert] of an email that some row already has returns
    [ErrDuplicateEmail] and stores nothing. *)
Theorem Insert_duplicate_email now (db : sql.DB) (user : User) i r :
  sql.users db !! i = Some r -> sql.email r = Email user ->
  Insert now None db user = (db, Returns (user, Some ErrDuplicateEmail)).
Proof.
  intros Hl He. unfold Insert, sql.run, sql.insert_user.
  rewrite (email_taken_true db None (Email user) i r Hl ltac:(discriminate) He).
  reflexivity.
Qed.

Lemma Insert_duplicate_email_witness :
  Insert 30 None two_users bob_as_ann = (two_users, Returns (bob_as_ann, Some ErrDuplicateEmail)).
Proof.
  apply (Insert_duplicate_email 30 two_users bob_as_ann 1 ann_row); reflexivity.
Defined.

(** On a store that answers, [Update] returns [ErrEditConflict] exactly
    when no row has both the caller's id and the caller's version: the id is
    unknown or the stored version differs. *)
Theorem Update_edit_conflict_iff (db : sql.DB) (user : User) :
  Update None db user = (db, Returns (user, Some ErrEditConflict))
  <-> (sql.users db !! ID user = None
       \/ exists old, sql.users db !! ID user = Some old
                      /\ sql.version old <> Version user).
Proof.
  split.
  - intros Hup.
    destruct (sql.users db !! ID user) as [old |] eqn:Hold; [right | now left].
    exists old. split; [reflexivity |]. intros Hv.
    destruct (sql.email_taken db (Some (ID user)) (Email user)) eqn:Htaken.
    + rewrite users_facts.Update_unique_violation in Hup; [discriminate |].
      unfold sql.update_user. rewrite Hold, Htaken.
      now rewrite (proj2 (Z.eqb_eq _ _) Hv).
    + unfold Update, sql.run, sql.update_user in Hup.
      rewrite Hold, Htaken, (proj2 (Z.eqb_eq _ _) Hv) in Hup. discriminate.
  - intros Hstale. apply users_facts.Update_edit_conflict.
    unfold sql.update_user.
    destruct Hstale as [-> | (old & -> & Hv)]; [reflexivity |].
    now rewrite (proj2 (Z.eqb_neq _ _) Hv).
Qed.

Lemma Update_edit_conflict_iff_witness :
  Update None two_users (with_Version bob 3)
  = (two_users, Returns (with_Version bob 3, Some ErrEditConflict)).
Proof.
  apply (Update_edit_conflict_iff two_users (with_Version bob 3)).
  right. exists bob_row. split; [reflexivity | discriminate].
Defined.

(** Lost updates are refused: once an [Update] from one copy of a user has
    succeeded, an [Update] from any copy still at the old version returns
    [ErrEditConflict] and changes nothing. *)
Theorem Update_from_stale_copy fault (db : sql.DB) (user : User) db1 user1 (stale : User) :
  Update fault db user = (db1, Returns (user1, None)) ->
  ID stale = ID user -> Version stale = Version user ->
  Update None db1 stale = (db1, Returns (stale, Some ErrEditConflict)).
Proof.
  intros (_ & old & Hold & Hv & _ & -> & ->)%users_facts.Update_success Hid Hver.
  apply users_facts.Update_edit_conflict.
  unfold sql.update_user. cbn [sql.users].
  rewrite Hid, lookup_insert_eq. cbn [sql.version].
  now rewrite (proj2 (Z.eqb_neq _ _)) by lia.
Qed.

Lemma Update_from_stale_copy_witness :
  Update None (Update None two_users bob).1 bob
  = ((Update None two_users bob).1, Returns (bob, Some ErrEditConflict)).
Proof.
  assert (Update None two_users bob
          = ((Update None two_users bob).1, Returns (with_Version bob 5, None)))
    as H by (vm_compute; reflexivity).
  exact (Update_from_stale_copy None two_users bob _ _ bob H eq_refl eq_refl).
Defined.

(** After a successful [Update] the returned copy is current: while the
    version stays within a 32-bit integer, and so within the [int] of
    [User.Version], a further [Update] from it on a store that answers
    succeeds and advances the version once more; and [GetByEmail] returns
    the written fields at the new version, without a plaintext. *)
Theorem Update_then_continue fault (db : sql.DB) (user : User) db1 user1 :
  Update fault db user = (db1, Returns (user1, None)) ->
  - 2 ^ 31 <= Version user -> Version user + 2 <= 2 ^ 31 - 1 ->
  (exists db2, Update None db1 user1
               = (db2, Returns (with_Version user (Version user + 2), None)))
  /\ exists old,
       sql.users db !! ID user = Some old /\
       GetByEmail None db1 (Email user)
       = (Some {| ID := ID user; CreatedAt := sql.created_at old; Name := Name user;
                  Email := Email user;
                  Password := {| password.PlainText := None;
                                 password.Hash := password.Hash (Password user) |};
                  Activated := Activated user; Version := Version user + 1 |}, None).
Proof.
  intros (_ & old & Hold & Hv & Htaken & -> & ->)%users_facts.Update_success _ _.
  pose proof (proj1 (email_taken_false _ _ _) Htaken) as Hfree.
  split.
  - unfold Update, sql.run, sql.update_user.
    cbn [sql.users ID Version with_Version Name Email Password Activated].
    rewrite lookup_insert_eq. cbn [sql.version]. rewrite Z.eqb_refl.
    assert (sql.email_taken
              {| sql.users :=
                   <[ID user := {| sql.created_at := sql.created_at old;
                                   sql.name := Name user; sql.email := Email user;
                                   sql.password_hash := password.Hash (Password user);
                                   sql.activated := Activated user;
                                   sql.version := sql.version old + 1 |}]> (sql.users db);
                 sql.tokens := sql.tokens db;
                 sql.users_id_seq := sql.users_id_seq db |}
              (Some (ID user)) (Email user) = false) as ->.
    { apply email_taken_false. cbn [sql.users]. intros i r Hl Hi.
      rewrite lookup_insert_ne in Hl by congruence. exact (Hfree i r Hl Hi). }
    eexists. cbn [sql.created_at sql.version]. rewrite Hv.
    replace (Version user + 1 + 1) with (Version user + 2) by lia. reflexivity.
  - exists old. split; [exact Hold |].
    unfold GetByEmail, sql.run. cbn [snd].
    rewrite (select_user_by_email_unique _ _ (ID user)
               {| sql.created_at := sql.created_at old; sql.name := Name user;
                  sql.email := Email user;
                  sql.password_hash := password.Hash (Password user);
                  sql.activated := Activated user; sql.version := sql.version old + 1 |});
      [rewrite Hv; reflexivity | apply lookup_insert_eq | reflexivity |].
    cbn [sql.users]. intros j r' Hl He.
    destruct (decide (j = ID user)) as [-> | Hne]; [reflexivity |].
    rewrite lookup_insert_ne in Hl by congruence.
    exfalso. apply (Hfree j r' Hl); [congruence | exact He].
Qed.

Lemma Update_then_continue_witness :
  GetByEmail None (Update None two_users bob).1 "bob@example.com"
  = (Some (with_Version bob 5), None).
Proof.
  assert (Update None two_users bob
          = ((Update None two_users bob).1, Returns (with_Version bob 5, None)))
    as H by (vm_compute; reflexivity).
  destruct (Update_then_continue None two_users bob _ _ H) as (_ & old & Hold & Hget);
    [vm_compute; discriminate | vm_compute; discriminate |].
  assert (Some old = Some bob_row) as [= ->] by (rewrite <- Hold; reflexivity).
  exact Hget.
Defined.

(** On a store that answers, [Update] never returns [ErrDuplicateEmail]:
    when the row matches and another row has the email, the caller gets the
    driver's error for constraint [users_email_key] and nothing is written. *)
Theorem Update_taken_email (db : sql.DB) (user : User) :
  (forall db' user', Update None db user <> (db', Returns (user', Some ErrDuplicateEmail)))
  /\ (forall old j r,
        sql.users db !! ID user = Some old -> sql.version old = Version user ->
        j <> ID user -> sql.users db !! j = Some r -> sql.email r = Email user ->
        Update None db user
        = (db, Returns (user, Some (sql.unique_violation "users_email_key")))).
Proof.
  split.
  - intros db' user'. unfold Update, sql.run.
    destruct (sql.update_user _ _ _ _ _ _ _) as [db1 [v | err]] eqn:Hup; [discriminate |].
    apply update_user_Err in Hup as [-> [-> | ->]]; cbn; discriminate.
  - intros old j r Hold Hv Hj Hl He.
    apply users_facts.Update_unique_violation.
    unfold sql.update_user. rewrite Hold, (proj2 (Z.eqb_eq _ _) Hv).
    rewrite (email_taken_true db (Some (ID user)) (Email user) j r Hl ltac:(congruence) He).
    reflexivity.
Qed.

Lemma Update_taken_email_witness :
  Update None two_users bob_as_ann
  = (two_users, Returns (bob_as_ann, Some (sql.unique_violation "users_email_key"))).
Proof.
  destruct (Update_taken_email two_users bob_as_ann) as [_ H].
  apply (H bob_row 1 ann_row); try reflexivity. discriminate.
Defined.

End repository_facts.

(** ** Validity of a user, of a plaintext *)

Module validity_facts.

Import validator data reference.

Lemma provided_true s : negb (String.eqb s EmptyString) = true <-> s <> EmptyString.
Proof. destruct (String.eqb_spec s EmptyString); simpl; intuition congruence. Qed.

Lemma NotIn_true s l : NotIn s l = true <-> s ∉ l.
Proof. unfold NotIn. rewrite negb_true_iff. apply bool_decide_eq_false. Qed.

Section Validation.
Context (EmailRX : Regexp) (CommonPasswords : list string).

Lemma Valid_ValidateEmail v e :
  Valid (ValidateEmail EmailRX v e) = true
  <-> Valid v = true /\ e <> EmptyString /\ EmailRX e = true.
Proof.
  unfold ValidateEmail, validator.Matches.
  rewrite !validator_facts.Valid_Check, provided_true. tauto.
Qed.

Lemma Valid_ValidatePassowrdPlaintext v pass :
  Valid (ValidatePassowrdPlaintext CommonPasswords v pass) = true
  <-> Valid v = true /\ 8 <= len pass <= 72 /\ pass ∉ CommonPasswords.
Proof.
  unfold ValidatePassowrdPlaintext.
  rewrite !validator_facts.Valid_Check, provided_true, NotIn_true, !Z.leb_le.
  split; [tauto |]. intros (Hv & Hlen & Hnot).
  repeat split; try assumption; try lia.
  intros ->. unfold len in Hlen. simpl in Hlen. lia.
Qed.

(** [ValidatePassowrdPlaintext] leaves a validator valid exactly when it
    was valid before and the plaintext has 8 to 72 bytes and is not in the
    denylist; the check for an empty plaintext adds nothing to the length
    check, and earlier failures are never cleared. *)
Theorem ValidatePassowrdPlaintext_valid_iff (v : Validator) (pass : string) :
  (Valid (ValidatePassowrdPlaintext CommonPasswords v pass) = true
   <-> Valid v = true /\ 8 <= len pass <= 72 /\ pass ∉ CommonPasswords)
  /\ (Valid (ValidatePassowrdPlaintext CommonPasswords v pass) = true ->
      pass <> EmptyString)
  /\ (forall k, failed k v -> failed k (ValidatePassowrdPlaintext CommonPasswords v pass)).
Proof.
  split; [apply Valid_ValidatePassowrdPlaintext |]. split.
  - intros (_ & Hlen & _)%Valid_ValidatePassowrdPlaintext ->.
    unfold len in Hlen. simpl in Hlen. lia.
  - intros k F. unfold ValidatePassowrdPlaintext.
    rewrite !validation_facts.failed_Check. tauto.
Qed.

(** [ValidateUser] on a fresh validator leaves it valid exactly when the
    name has 1 to 500 bytes, the email is not empty and matches the
    pattern, and the plaintext, if there is one, has 8 to 72 bytes and is
    not in the denylist; this holds whether the call returns or panics. *)
Theorem ValidateUser_valid_iff (user : User) :
  Valid (ValidateUser EmailRX CommonPasswords validator.New user).1 = true
  <-> (1 <= len (Name user) <= 500)
      /\ (Email user <> EmptyString /\ EmailRX (Email user) = true)
      /\ (forall plain, password.PlainText (Password user) = Some plain ->
            8 <= len plain <= 72 /\ plain ∉ CommonPasswords).
Proof.
  assert (Name user <> EmptyString <-> 1 <= len (Name user)) as Hname.
  { unfold len. destruct (Name user); simpl; split; intros; try congruence; lia. }
  assert (Valid (ValidateUser EmailRX CommonPasswords validator.New user).1
          = Valid (match password.PlainText (Password user) with
                   | Some plain =>
                       ValidatePassowrdPlaintext CommonPasswords
                         (ValidateEmail EmailRX
                            (Check (len (Name user) <=? 500) "name"
                               "must not be more than 500 bytes long"
                               (Check (negb (String.eqb (Name user) EmptyString)) "name"
                                  "must be provided" validator.New))
                            (Email user)) plain
                   | None =>
                       ValidateEmail EmailRX
                         (Check (len (Name user) <=? 500) "name"
                            "must not be more than 500 bytes long"
                            (Check (negb (String.eqb (Name user) EmptyString)) "name"
                               "must be provided" validator.New))
                         (Email user)
                   end)) as ->
      by (unfold ValidateUser; now destruct (password.Hash (Password user))).
  destruct (password.PlainText (Password user)) as [plain |].
  - rewrite Valid_ValidatePassowrdPlaintext, Valid_ValidateEmail,
      !validator_facts.Valid_Check, provided_true, Z.leb_le, Hname.
    split.
    + intros (((H500 & H1 & _) & Hne & Hrx) & Hplen & Hnotin).
      split; [lia |]. split; [now split |].
      intros p [= <-]. now split.
    + intros (Hn & [Hne Hrx] & Hp). destruct (Hp plain eq_refl) as [Hl Hd].
      pose proof validator_facts.Valid_New.
      repeat split; first [assumption | lia].
  - rewrite Valid_ValidateEmail, !validator_facts.Valid_Check, provided_true, Z.leb_le, Hname.
    split.
    + intros ((H500 & H1 & _) & Hne & Hrx).
      split; [lia |]. split; [now split |]. discriminate.
    + intros (Hn & [Hne Hrx] & _).
      pose proof validator_facts.Valid_New.
      repeat split; first [assumption | lia].
Qed.

End Validation.

Lemma ValidatePassowrdPlaintext_valid_iff_witness :
  Valid (ValidatePassowrdPlaintext denylist validator.New "pa55word!") = true
  /\ Valid (ValidatePassowrdPlaintext denylist validator.New "password") = false.
Proof.
  destruct (ValidatePassowrdPlaintext_valid_iff denylist validator.New "pa55word!")
    as [Hiff _].
  destruct (ValidatePassowrdPlaintext_valid_iff denylist validator.New "password")
    as [Hiff' _].
  split.
  - apply Hiff. split; [reflexivity |]. split; [unfold len; simpl String.length; lia |].
    intros H. apply list_elem_of_In in H. simpl in H.
    destruct H as [H | [H | [H | []]]]; discriminate.
  - apply not_true_iff_false. intros (_ & _ & Hd)%Hiff'. apply Hd.
    apply list_elem_of_In. simpl. tauto.
Defined.

Lemma ValidateUser_valid_iff_witness :
  Valid (ValidateUser contains_at denylist validator.New bob).1 = true
  /\ Valid (ValidateUser contains_at denylist validator.New alice).1 = true
  /\ (ValidateUser contains_at denylist validator.New alice).2
     = Panics "missing password hash for user".
Proof.
  split; [| split; [| reflexivity]].
  - apply (ValidateUser_valid_iff contains_at denylist bob).
    split; [unfold len; simpl String.length; lia |]. split; [split; [discriminate | reflexivity] |].
    intros plain H. discriminate.
  - apply (ValidateUser_valid_iff contains_at denylist alice).
    split; [unfold len; simpl String.length; lia |]. split; [split; [discriminate | reflexivity] |].
    intros plain H. discriminate.
Defined.

End validity_facts.

(** ** Changing a password *)

Module credential_facts.

Import bcrypt password reference.

Section WithPrimitive.
Context {B : Primitive}.

(** After a password was set, a second [Set] that succeeds replaces it: the
    new plaintext matches, and the old one no longer does when its key
    material differs (digests of different key material being distinct); a
    second [Set] that fails leaves the old password matching. *)
Theorem password_change entropy1 entropy2 (p p1 p2 : Password) (plain1 plain2 : string)
    (r : option error) :
  contract B ->
  Set_ entropy1 p plain1 = (p1, None) ->
  Set_ entropy2 p1 plain2 = (p2, r) ->
  match r with
  | None =>
      PlainText p2 = Some plain2
      /\ Matches p2 plain2 = (true, None)
      /\ (collision_free B ->
          key_stream (bytes_of plain1) <> key_stream (bytes_of plain2) ->
          Matches p2 plain1 = (false, None))
  | Some err => p2 = p1 /\ Matches p2 plain1 = (true, None)
  end.
Proof.
  intros HB (h1 & Hgen1 & ->)%password_facts.Set_success Hset2.
  destruct r as [err |].
  - unfold Set_ in Hset2.
    destruct (GenerateFromPassword entropy2 (bytes_of plain2) 12); [discriminate |].
    injection Hset2 as <- _. split; [reflexivity |].
    unfold Matches. cbn. now rewrite (generate_compare B HB _ _ _ _ Hgen1).
  - apply password_facts.Set_success in Hset2 as (h2 & Hgen2 & ->).
    split; [reflexivity |]. split.
    + unfold Matches. cbn. now rewrite (generate_compare B HB _ _ _ _ Hgen2).
    + intros HC Hdiff. unfold Matches. cbn.
      rewrite (HC _ _ _ _ (bytes_of plain1) Hgen2 Hdiff).
      now rewrite errors_facts.Is_refl.
Qed.

End WithPrimitive.

Lemma password_change_witness :
  Matches (B := bcrypt_model.primitive)
    (Set_ (B := bcrypt_model.primitive) salt16 was_set (String.append plain72 "x")).1
    "pa55word!" = (true, None)
  /\ Matches (B := bcrypt_model.primitive)
       (Set_ (B := bcrypt_model.primitive) salt16 was_set plain72).1 plain72 = (true, None).
Proof.
  split.
  - exact (proj2 (password_change (B := bcrypt_model.primitive) salt16 salt16 unset was_set
                    (Set_ (B := bcrypt_model.primitive) salt16 was_set
                       (String.append plain72 "x")).1
                    "pa55word!" (String.append plain72 "x") (Some ErrPasswordTooLong)
                    bcrypt_model_facts.contract_holds
                    ltac:(vm_compute; reflexivity) ltac:(vm_compute; reflexivity))).
  - exact (proj1 (proj2 (password_change (B := bcrypt_model.primitive) salt16 salt16 unset
                    was_set (Set_ (B := bcrypt_model.primitive) salt16 was_set plain72).1
                    "pa55word!" plain72 None
                    bcrypt_model_facts.contract_holds
                    ltac:(vm_compute; reflexivity) ltac:(vm_compute; reflexivity)))).
Defined.

End credential_facts.
